(** * goshort: a shallow embedding of [main.go] and its specification

    The program is a single Go file: a URL shortener that keeps two
    package-level maps ([storage], slug to URL, and [storageReverse], URL to
    slug), loads them from a text file at start-up ([readStorage]), rewrites
    the file after every new entry ([writeStorage]), draws random slugs
    ([oneSlugEntry], [genSlug], [genUniqueSlug]), validates slugs chosen by the
    caller ([invalidSlug]) and serves three kinds of requests from one HTTP
    handler (the closure in [main]).

    Go strings are byte strings: they are modelled by [string], whose
    characters ([ascii]) are the 256 byte values.  Go [int]s and [rune]s are
    modelled by [Z].  The two maps are [gmap string string].  A Go [panic] is
    an outcome of its own ([Panicked]); [main.go] has no [recover].  The lock
    [storageMutex] is not modelled: requests are handled one at a time. *)

From Stdlib Require Import ZArith NArith Ascii String List Lia ZifyBool.
From stdpp Require Import base option list gmap strings fin_maps.

Local Open Scope string_scope.

(** ** Bytes, runes and the pieces of Go's [strings] package that are used *)

Definition byteZ (c : ascii) : Z := Z.of_N (N_of_ascii c).
Definition byte_of (z : Z) : ascii := ascii_of_N (Z.to_N z).

Definition newline : ascii := ascii_of_nat 10.
Definition carriage_return : ascii := ascii_of_nat 13.
Definition space : ascii := ascii_of_nat 32.
Definition slash : ascii := ascii_of_nat 47.

(** [utf8.RuneError], U+FFFD. *)
Definition RuneError : Z := 65533.

Definition between (lo hi : Z) (c : ascii) : bool :=
  ((lo <=? byteZ c) && (byteZ c <=? hi))%Z.

(** [utf8.DecodeRuneInString]: the first rune of [s] and the number of bytes
    it occupies.  A byte that does not start a well-formed encoding decodes to
    [RuneError] with width 1. *)
Definition DecodeRuneInString (s : string) : Z * nat :=
  match s with
  | EmptyString => (RuneError, 0%nat)
  | String c0 t0 =>
    let b0 := byteZ c0 in
    if (b0 <? 128)%Z then (b0, 1%nat)
    else if ((b0 <? 194) || (244 <? b0))%Z then (RuneError, 1%nat)
    else
      match t0 with
      | EmptyString => (RuneError, 1%nat)
      | String c1 t1 =>
        let b1 := byteZ c1 in
        if (b0 <? 224)%Z then
          if between 128 191 c1
          then (((b0 - 192) * 64 + (b1 - 128))%Z, 2%nat)
          else (RuneError, 1%nat)
        else if (b0 <? 240)%Z then
          let lo := if (b0 =? 224)%Z then 160%Z else 128%Z in
          let hi := if (b0 =? 237)%Z then 159%Z else 191%Z in
          if between lo hi c1 then
            match t1 with
            | EmptyString => (RuneError, 1%nat)
            | String c2 _ =>
              if between 128 191 c2
              then (((b0 - 224) * 4096 + (b1 - 128) * 64 + (byteZ c2 - 128))%Z,
                    3%nat)
              else (RuneError, 1%nat)
            end
          else (RuneError, 1%nat)
        else
          let lo := if (b0 =? 240)%Z then 144%Z else 128%Z in
          let hi := if (b0 =? 244)%Z then 143%Z else 191%Z in
          if between lo hi c1 then
            match t1 with
            | EmptyString => (RuneError, 1%nat)
            | String c2 t2 =>
              if between 128 191 c2 then
                match t2 with
                | EmptyString => (RuneError, 1%nat)
                | String c3 _ =>
                  if between 128 191 c3
                  then (((b0 - 240) * 262144 + (b1 - 128) * 4096
                         + (byteZ c2 - 128) * 64 + (byteZ c3 - 128))%Z, 4%nat)
                  else (RuneError, 1%nat)
                end
              else (RuneError, 1%nat)
            end
          else (RuneError, 1%nat)
      end
  end.

(** [for _, char := range s]: the runes of [s] in order.  [skip] counts the
    bytes of the rune decoded last that are still to be passed over. *)
Fixpoint range_from (skip : nat) (s : string) : list Z :=
  match s with
  | EmptyString => []
  | String _ t =>
    match skip with
    | S k => range_from k t
    | O => let '(r, w) := DecodeRuneInString s in r :: range_from (pred w) t
    end
  end.

Definition range_string (s : string) : list Z := range_from 0 s.

(** [string(r)] for a rune [r]: its UTF-8 encoding, that of U+FFFD when [r]
    is not a valid code point. *)
Definition string_of_rune (r : Z) : string :=
  if ((r <? 0) || (1114111 <? r) || ((55296 <=? r) && (r <=? 57343)))%Z then
    String (byte_of 239) (String (byte_of 191) (String (byte_of 189) ""))
  else if (r <? 128)%Z then String (byte_of r) ""
  else if (r <? 2048)%Z then
    String (byte_of (192 + r / 64)) (String (byte_of (128 + r mod 64)) "")
  else if (r <? 65536)%Z then
    String (byte_of (224 + r / 4096))
      (String (byte_of (128 + (r / 64) mod 64))
         (String (byte_of (128 + r mod 64)) ""))
  else
    String (byte_of (240 + r / 262144))
      (String (byte_of (128 + (r / 4096) mod 64))
         (String (byte_of (128 + (r / 64) mod 64))
            (String (byte_of (128 + r mod 64)) ""))).

(** [string(entries)] for [entries []rune]. *)
Fixpoint string_of_runes (rs : list Z) : string :=
  match rs with
  | [] => ""
  | r :: rs' => string_of_rune r ++ string_of_runes rs'
  end.

(** [strings.Contains(s, substr)]. *)
Fixpoint Contains (s substr : string) : bool :=
  String.prefix substr s ||
  match s with
  | EmptyString => false
  | String _ t => Contains t substr
  end.

(** [strings.TrimPrefix(s, "/")]. *)
Definition TrimPrefix_slash (s : string) : string :=
  match s with
  | String c t => if Ascii.eqb c slash then t else s
  | EmptyString => s
  end.

(** [strings.Replace(s, "\n", "", -1)]: every newline byte is removed. *)
Fixpoint Replace_newlines (s : string) : string :=
  match s with
  | EmptyString => ""
  | String c t =>
    if Ascii.eqb c newline then Replace_newlines t
    else String c (Replace_newlines t)
  end.

(** Cutting [s] at the first occurrence of the byte [sep]. *)
Fixpoint cut (sep : ascii) (s : string) : option (string * string) :=
  match s with
  | EmptyString => None
  | String c t =>
    if Ascii.eqb c sep then Some ("", t)
    else match cut sep t with
         | Some (before, after) => Some (String c before, after)
         | None => None
         end
  end.

(** [strings.SplitN(s, " ", 2)]: at most two pieces, cut at the first
    space; a string without a space is returned whole. *)
Definition SplitN_space_2 (s : string) : list string :=
  match cut space s with
  | Some (before, after) => [before; after]
  | None => [s]
  end.

(** ** [bufio.Scanner] with the default split function [bufio.ScanLines] *)

(** [bufio.MaxScanTokenSize]: the scanner's buffer never grows beyond this. *)
Definition MaxScanTokenSize : nat := Z.to_nat 65536.

(** The text between newlines; the last element is what follows the last
    newline (empty when the text ends with one). *)
Fixpoint newline_fields (s : string) : list string :=
  match s with
  | EmptyString => [""]
  | String c t =>
    if Ascii.eqb c newline then "" :: newline_fields t
    else match newline_fields t with
         | l :: ls => String c l :: ls
         | [] => [String c ""]
         end
  end.

(** The lines as [ScanLines] sees them: a final piece without a newline is a
    line unless it is empty. *)
Fixpoint raw_lines (fields : list string) : list string :=
  match fields with
  | [] => []
  | [last] => if String.eqb last "" then [] else [last]
  | l :: ls => l :: raw_lines ls
  end.

(** [dropCR]: one trailing carriage return is not part of the line. *)
Fixpoint dropCR (s : string) : string :=
  match s with
  | EmptyString => ""
  | String c EmptyString => if Ascii.eqb c carriage_return then "" else s
  | String c t => String c (dropCR t)
  end.

(** The tokens delivered by successive [scanner.Scan()] calls, and whether
    the scanner stopped with [ErrTooLong]: a line (with its carriage return,
    without its newline) of [MaxScanTokenSize] bytes or more fills the buffer
    before its end is seen, and scanning stops there for good. *)
Fixpoint scan_tokens (ls : list string) : list string * bool :=
  match ls with
  | [] => ([], false)
  | l :: ls' =>
    if (MaxScanTokenSize <=? String.length l)%nat then ([], true)
    else let '(toks, err) := scan_tokens ls' in (dropCR l :: toks, err)
  end.

Definition Scanner (content : string) : list string * bool :=
  scan_tokens (raw_lines (newline_fields content)).

(** ** Process state, flags, and the outcome of a call *)

(** The command-line flags that the modelled functions read.  The storage
    file name designates the one file of [World]; host and port only feed
    [ListenAndServe]. *)
Record Flags := {
  ServerNameConfig : string;
  SecretConfig : string;
  SpaceConfig : Z;
}.

(** What the Go runtime and the operating system decide: the order in which
    [range] visits a map, and whether [ioutil.TempFile] succeeds. *)
Record Host := {
  rangeOrder : gmap string string → list (string * string);
  tempFileOk : bool;
}.

(** The package-level variables, the storage file ([None]: it cannot be
    opened) and the global source of [math/rand], given by the sequence of
    its raw outputs and the number of them used so far. *)
Record World := mkWorld {
  storage : gmap string string;
  storageReverse : gmap string string;
  file : option string;
  rand_source : nat → nat;
  rand_used : nat;
}.

Definition set_maps (fwd rev : gmap string string) (w : World) : World :=
  mkWorld fwd rev (file w) (rand_source w) (rand_used w).

Definition set_file (f : option string) (w : World) : World :=
  mkWorld (storage w) (storageReverse w) f (rand_source w) (rand_used w).

Definition set_rand_used (n : nat) (w : World) : World :=
  mkWorld (storage w) (storageReverse w) (file w) (rand_source w) n.

Inductive Outcome (A : Type) : Type :=
| Returned (a : A)
| Panicked (msg : string).
Arguments Returned {A} a.
Arguments Panicked {A} msg.

(** A Go function with access to the globals: it returns a value and the new
    state, or panics. *)
Definition M (A : Type) : Type := World → Outcome (A * World).

#[global] Instance M_ret : MRet M := λ A a w, Returned (a, w).
#[global] Instance M_bind : MBind M := λ A B f c w,
  match c w with
  | Returned (a, w') => f a w'
  | Panicked msg => Panicked msg
  end.

Definition panic {A : Type} (msg : string) : M A := λ _, Panicked msg.
Definition get_world : M World := λ w, Returned (w, w).
Definition modify_world (f : World → World) : M unit := λ w, Returned (tt, f w).

(** ** Slug generation ([main.go], lines 93 to 126) *)

Definition allSlugPossibilities : string :=
  "abcdefghijklmnopqrstuvwxyzABCDEFGHIJKLMNOPQRSTUVWXYZ0123456789".

Definition len (s : string) : Z := Z.of_nat (String.length s).

(** [rand.Intn(n)]: panics unless [0 < n], else a number in [[0, n)]. *)
Definition Intn (n : Z) : M Z := λ w,
  if (n <=? 0)%Z then Panicked "invalid argument to Intn"
  else Returned ((Z.of_nat (rand_source w (rand_used w)) mod n)%Z,
                 set_rand_used (S (rand_used w)) w).

(** [s[i]], with Go's bounds check. *)
Definition index (s : string) (i : Z) : M ascii :=
  if ((i <? 0) || (len s <=? i))%Z then panic "index out of range"
  else match String.get (Z.to_nat i) s with
       | Some c => mret c
       | None => panic "index out of range"
       end.

Definition oneSlugEntry : M Z :=
  i ← Intn (len allSlugPossibilities);
  c ← index allSlugPossibilities i;
  mret (byteZ c).

(** [for ix := range entries { entries[ix] = oneSlugEntry() }] over a slice
    of [n] elements. *)
Fixpoint fill_entries (n : nat) : M (list Z) :=
  match n with
  | O => mret []
  | S k => e ← oneSlugEntry; es ← fill_entries k; mret (e :: es)
  end.

(** [make([]rune, n)] panics for a negative [n]. *)
Definition genSlug (cfg : Flags) : M string :=
  if (SpaceConfig cfg <? 0)%Z then panic "makeslice: len out of range"
  else entries ← fill_entries (Z.to_nat (SpaceConfig cfg));
       mret (string_of_runes entries).

Definition exhausted : string :=
  "Tried generating 100,000 slugs, and couldn't find one...".

(** The loop of [genUniqueSlug] with [attempts] iterations left, that is
    [attempts = 100000 - ix]. *)
Fixpoint genUniqueSlug_loop (cfg : Flags) (attempts : nat) : M string :=
  match attempts with
  | O => panic exhausted
  | S k =>
    s ← genSlug cfg;
    w ← get_world;
    match storage w !! s with
    | None => mret s
    | Some _ => genUniqueSlug_loop cfg k
    end
  end.

Definition max_attempts : nat := Z.to_nat 100000.

Definition genUniqueSlug (cfg : Flags) : M string :=
  genUniqueSlug_loop cfg max_attempts.

Fixpoint invalidSlug_loop (chars : list Z) : bool :=
  match chars with
  | [] => false
  | char :: rest =>
    if negb (Contains allSlugPossibilities (string_of_rune char)) then true
    else invalidSlug_loop rest
  end.

Definition invalidSlug (slug : string) : bool :=
  invalidSlug_loop (range_string slug).

(** ** Loading and persisting ([main.go], lines 44 to 91) *)

(** The body of the scanning loop of [readStorage] for one line. *)
Definition readLine (w : World) (line : string) : World :=
  match SplitN_space_2 line with
  | [p0; p1] =>
    set_maps (<[p0 := p1]> (storage w)) (<[p1 := p0]> (storageReverse w)) w
  | _ => w
  end.

(** A scanner error is only reported on standard error, which is not
    modelled. *)
Definition readStorage (w : World) : World :=
  match file w with
  | None => w
  | Some content => foldl readLine w (Scanner content).1
  end.

(** The text printed by [fmt.Fprintf(f, "%s %s\n", slug, ...)] for the
    entries in the order in which [range storage] visits them. *)
Fixpoint storage_text (entries : list (string * string)) : string :=
  match entries with
  | [] => ""
  | (slug, url) :: rest =>
    slug ++ String space (Replace_newlines url ++ String newline (storage_text rest))
  end.

(** When the temporary file cannot be created the storage file stays as it
    is; otherwise it is replaced by the temporary file. *)
Definition writeStorage (h : Host) (w : World) : World :=
  if tempFileOk h
  then set_file (Some (storage_text (rangeOrder h (storage w)))) w
  else w.

(** ** The request handler ([main.go], lines 134 to 175) *)

(** A request as the handler reads it: the method, the path of the parsed
    request URI, and the values of the posted form ([""] for a missing
    field). *)
Record Request := {
  Method : string;
  Path : string;
  PostFormValue : string → string;
}.

(** What the handler does with its [http.ResponseWriter]. *)
Inductive Response : Type :=
| Write (body : string)
| Error (msg : string) (code : Z)
| Redirect (url : string) (code : Z)
| NotFound.

Definition StatusUnauthorized : Z := 401.
Definition StatusMovedPermanently : Z := 301.

(** [fmt.Sprintf("%s/%s", a, b)]. *)
Definition Sprintf_slash (a b : string) : string := a ++ String slash b.

Definition handler (cfg : Flags) (h : Host) (r : Request) : M Response :=
  let path := Path r in
  if String.eqb (Method r) "POST" && String.eqb path "/submit" then
    let secret := PostFormValue r "secret" in
    let url := PostFormValue r "url" in
    let slug := PostFormValue r "slug" in
    if String.eqb secret (SecretConfig cfg) && negb (String.eqb url "") then
      w ← get_world;
      match storageReverse w !! url with
      | Some existingSlug =>
        mret (Write (Sprintf_slash (ServerNameConfig cfg) existingSlug))
      | None =>
        let exists_ := bool_decide (is_Some (storage w !! slug)) in
        slug ← (if String.eqb slug "" || invalidSlug slug || exists_
                then genUniqueSlug cfg else mret slug);
        modify_world (λ w, set_maps (<[slug := url]> (storage w))
                                    (storageReverse w) w);;
        modify_world (writeStorage h);;
        mret (Write (Sprintf_slash (ServerNameConfig cfg) slug))
      end
    else mret (Error "Not authorized" StatusUnauthorized)
  else if String.eqb (Method r) "GET" || String.eqb (Method r) "HEAD" then
    let slug := TrimPrefix_slash path in
    w ← get_world;
    match storage w !! slug with
    | Some url => mret (Redirect url StatusMovedPermanently)
    | None => mret NotFound
    end
  else mret NotFound.

(** ** [init] and [main] *)

(** The state after [init]: both maps empty. *)
Definition init (f : option string) (src : nat → nat) : World :=
  mkWorld ∅ ∅ f src 0.

(** [main] up to [ListenAndServe]: the state in which requests are served. *)
Definition startup (f : option string) (src : nat → nat) : World :=
  readStorage (init f src).

(** Requests handled one after the other, up to the first panic. *)
Fixpoint serve (cfg : Flags) (h : Host) (rs : list Request) : M (list Response) :=
  match rs with
  | [] => mret []
  | r :: rs' =>
    resp ← handler cfg h r;
    resps ← serve cfg h rs';
    mret (resp :: resps)
  end.

(** ** Vocabulary of the specification *)

Definition bytes (s : string) : list ascii := list_ascii_of_string s.

(** A character of the 62-character alphabet. *)
Definition in_alphabet (c : ascii) : Prop := In c (bytes allSlugPossibilities).

(** A string that consists only of characters of the alphabet. *)
Definition alphabetic (s : string) : Prop := Forall in_alphabet (bytes s).

(** The byte [c] does not occur in [s]. *)
Definition free_of (c : ascii) (s : string) : Prop := ¬ In c (bytes s).

(** Forward and reverse mapping hold the same pairs. *)
Definition consistent (w : World) : Prop :=
  ∀ slug url, storage w !! slug = Some url ↔ storageReverse w !! url = Some slug.

(** The caller's slug is taken as it is. *)
Definition acceptable (w : World) (slug : string) : Prop :=
  slug ≠ "" ∧ alphabetic slug ∧ storage w !! slug = None.

(** The forward mapping of a fresh process started on the file that
    [writeStorage] leaves behind. *)
Definition persist_then_load (h : Host) (w : World) : gmap string string :=
  storage (startup (file (writeStorage h w)) (rand_source w)).

(** The line written for one entry, without its newline. *)
Definition entry_line (slug url : string) : string := slug ++ String space url.

(** The [k]-th attempt of [genUniqueSlug] started in [w] draws its candidate
    after the [k] earlier ones have used the random source. *)
Definition attempt (cfg : Flags) (w : World) (k : nat) : Outcome (string * World) :=
  genSlug cfg (set_rand_used (rand_used w + k * Z.to_nat (SpaceConfig cfg)) w).

(** The candidates before the [k]-th are all present in the forward map. *)
Definition taken_before (cfg : Flags) (w : World) (k : nat) : Prop :=
  ∀ j, (j < k)%nat →
       ∃ sj wj, attempt cfg w j = Returned (sj, wj) ∧ is_Some (storage w !! sj).

(** The state after the entry [(slug, url)] has been put into the forward
    map of [w] and the storage file rewritten. *)
Definition added (h : Host) (slug url : string) (w : World) : World :=
  writeStorage h (set_maps (<[slug := url]> (storage w)) (storageReverse w) w).

(** The slug under which the handler stores a new entry (lines 150 to 153):
    the caller's, or a generated one. *)
Definition pick (cfg : Flags) (w : World) (slug : string) : Outcome (string * World) :=
  if String.eqb slug "" || invalidSlug slug
     || bool_decide (is_Some (storage w !! slug))
  then genUniqueSlug cfg w else Returned (slug, w).

(** The string ends with a carriage return. *)
Definition ends_with_cr (s : string) : Prop :=
  ∃ t, s = t ++ String carriage_return "".

(** A line that fits into the scanner's buffer. *)
Definition short (l : string) : Prop := (String.length l < MaxScanTokenSize)%nat.

(** The line that [writeStorage] prints for an entry. *)
Definition written (p : string * string) : string :=
  entry_line p.1 (Replace_newlines p.2).

(** An entry that survives a round trip through the storage file: its line
    is cut and delimited where it was put together, keeps its last byte, and
    fits into the scanner's buffer. *)
Definition storable (p : string * string) : Prop :=
  free_of space p.1 ∧ free_of newline p.1 ∧
  ¬ ends_with_cr (Replace_newlines p.2) ∧
  (len p.1 + 1 + len (Replace_newlines p.2) < 65536)%Z.

(** No slug of the forward map contains a space or a newline. *)
Definition clean_slugs (w : World) : Prop :=
  ∀ slug url, storage w !! slug = Some url →
              free_of space slug ∧ free_of newline slug.

(** ** Concrete flags, hosts and requests used in the examples *)

(** The default values of the flags. *)
Definition default_flags : Flags :=
  {| ServerNameConfig := "http://localhost";
     SecretConfig := "changeme";
     SpaceConfig := 5 |}.

Definition zero_space_flags : Flags :=
  {| ServerNameConfig := "http://localhost";
     SecretConfig := "changeme";
     SpaceConfig := 0 |}.

Definition plain_host : Host :=
  {| rangeOrder := map_to_list; tempFileOk := true |}.

Definition form (fields : list (string * string)) (key : string) : string :=
  match List.find (λ kv, String.eqb kv.1 key) fields with
  | Some kv => kv.2
  | None => ""
  end.

Definition submit (secret url slug : string) : Request :=
  {| Method := "POST"; Path := "/submit";
     PostFormValue := form [("secret", secret); ("url", url); ("slug", slug)] |}.

Definition GET (path : string) : Request :=
  {| Method := "GET"; Path := path; PostFormValue := form [] |}.

Definition HEAD (path : string) : Request :=
  {| Method := "HEAD"; Path := path; PostFormValue := form [] |}.

(** A random source whose raw outputs are 0, 7, 14, ... *)
Definition sevens (n : nat) : nat := n * 7.

Fixpoint replicate_byte (n : nat) (c : ascii) : string :=
  match n with
  | O => ""
  | S k => String c (replicate_byte k c)
  end.

(** The state after [http://example.com] has been submitted once, and twice,
    to a server started without a storage file. *)
Definition once : World :=
  added plain_host "ahovC" "http://example.com"
    (set_rand_used 5 (startup None sevens)).

Definition twice : World :=
  added plain_host "JQX4b" "http://example.com" (set_rand_used 10 once).

(** A URL that ends with a carriage return, and the state after it has been
    submitted with the slug [ab]. *)
Definition cr_url : string := "x" ++ String carriage_return "".

Definition cr_world : World := added plain_host "ab" cr_url (startup None sevens).

(** A file whose first line fills the scanner's buffer. *)
Definition long_file : string :=
  replicate_byte MaxScanTokenSize "a" ++ String newline ("b c" ++ String newline "").

(** A file of one line that begins with a space and fills the buffer. *)
Definition long_spaced_line : string :=
  String space (replicate_byte MaxScanTokenSize "a").

Definition long_spaced_file : string := long_spaced_line ++ String newline "".

(** A file with an empty slug and a slug outside the alphabet. *)
Definition odd_file : string :=
  " http://example.com" ++ String newline ("a-b http://example.org" ++ String newline "").

(** ** Further vocabulary and examples *)

(** The request asks for a new entry: an authorized submission of a URL that
    the reverse lookup does not find. *)
Definition creating (cfg : Flags) (r : Request) (w : World) : Prop :=
  Method r = "POST" ∧ Path r = "/submit" ∧
  PostFormValue r "secret" = SecretConfig cfg ∧ PostFormValue r "url" ≠ "" ∧
  storageReverse w !! PostFormValue r "url" = None.

(** [l1 ++ eol ++ l2 ++ eol ++ ...]: the text whose lines are [ls], each ended
    by [eol]. *)
Fixpoint join_lines (eol : string) (ls : list string) : string :=
  match ls with
  | [] => ""
  | l :: ls' => l ++ eol ++ join_lines eol ls'
  end.

Definition LF : string := String newline "".

Definition CRLF : string := String carriage_return (String newline "").

(** The character of the alphabet selected by the [i]-th raw output of the
    random source. *)
Definition drawn (w : World) (i : nat) : option ascii :=
  String.get (rand_source w i mod 62) allSlugPossibilities.

Definition negative_space_flags : Flags :=
  {| ServerNameConfig := "http://localhost";
     SecretConfig := "changeme";
     SpaceConfig := -1 |}.

(** ** [writeStorage] statement by statement, on a directory of files *)

(** A directory: file names and contents. *)
Abbreviation Files := (gmap string string).

(** [fileExists] (lines 65 to 68). *)
Definition fileExists (filename : string) (fs : Files) : bool :=
  bool_decide (is_Some (fs !! filename)).

(** [os.Remove]; an error is ignored by the caller. *)
Definition Remove (name : string) (fs : Files) : Files := delete name fs.

(** [os.Rename]; an error (no such file) is ignored by the caller. *)
Definition Rename (oldpath newpath : string) (fs : Files) : Files :=
  match fs !! oldpath with
  | Some content => <[newpath := content]> (delete oldpath fs)
  | None => fs
  end.

(** [fmt.Fprintf(f, "%s %s\n", slug, strings.Replace(url, "\n", "", -1))]:
    the line is written at the end of the open file [f]. *)
Definition Fprintf_entry (f : string) (fs : Files) (p : string * string) : Files :=
  <[f := default "" (fs !! f)
         ++ (p.1 ++ String space (Replace_newlines p.2 ++ String newline ""))]> fs.

(** The loop of lines 80 to 82 over the entries in the order of the
    iteration. *)
Definition print_all (f : string) (entries : list (string * string)) (fs : Files)
  : Files :=
  foldl (Fprintf_entry f) fs entries.

(** The directory after each iteration of that loop. *)
Fixpoint print_steps (f : string) (entries : list (string * string)) (fs : Files)
  : list Files :=
  match entries with
  | [] => []
  | p :: rest => Fprintf_entry f fs p :: print_steps f rest (Fprintf_entry f fs p)
  end.

(** The directory after [f.Close()], after lines 86 to 88, and when
    [writeStorage] returns.  [temp] is the name of the file that
    [ioutil.TempFile] creates ([None] when it fails and [writeStorage]
    returns at once), [name] the storage file, [entries] the forward map in
    the order of the iteration. *)
Definition closed (f : string) (entries : list (string * string)) (fs : Files)
  : Files :=
  print_all f entries (<[f := ""]> fs).

Definition removed (name f : string) (entries : list (string * string))
    (fs : Files) : Files :=
  if fileExists name (closed f entries fs)
  then Remove name (closed f entries fs) else closed f entries fs.

Definition writeStorage_files (name : string) (temp : option string)
    (entries : list (string * string)) (fs : Files) : Files :=
  match temp with
  | None => fs
  | Some f => Rename f name (removed name f entries fs)
  end.

(** The directory after each statement of [writeStorage] that changes it. *)
Definition writeStorage_steps (name : string) (temp : option string)
    (entries : list (string * string)) (fs : Files) : list Files :=
  match temp with
  | None => []
  | Some f =>
    (<[f := ""]> fs :: print_steps f entries (<[f := ""]> fs))
    ++ [removed name f entries fs; writeStorage_files name temp entries fs]
  end.

(** The default name of the storage file, and a directory that holds an
    older version of it next to another file. *)
Definition storage_name : string := ".goshort.urls.config".

Definition old_directory : Files :=
  {[ storage_name := "zz http://example.org" ++ LF; "notes.txt" := "keep" ]}.

(** * Properties of the embedding *)

(** ** Bytes and the alphabet *)

Lemma byteZ_range c : (0 ≤ byteZ c < 256)%Z.
Proof.
  unfold byteZ. pose proof (N_ascii_bounded c). lia.
Qed.

Lemma byte_of_byteZ c : byte_of (byteZ c) = c.
Proof.
  unfold byte_of, byteZ. rewrite N2Z.id. apply ascii_N_embedding.
Qed.

Lemma byteZ_byte_of z : (0 ≤ z < 256)%Z → byteZ (byte_of z) = z.
Proof.
  intros Hz. unfold byte_of, byteZ.
  rewrite N_ascii_embedding by lia. lia.
Qed.

Lemma alphabet_is_ascii c : in_alphabet c → (byteZ c < 128)%Z.
Proof.
  unfold in_alphabet, bytes. cbn.
  intros H. repeat (destruct H as [<- | H]; [vm_compute; reflexivity |]).
  destruct H.
Qed.

Lemma prefix_cons c t s :
  String.prefix (String c t) s = true → ∃ s', s = String c s'.
Proof.
  destruct s as [| c' s']; cbn; [discriminate |].
  destruct (ascii_dec c c') as [-> | ]; [eauto | discriminate].
Qed.

Lemma Contains_cons_In s c t :
  Contains s (String c t) = true → In c (bytes s).
Proof.
  induction s as [| c' s' IH]; intros H.
  - cbn in H. discriminate.
  - change (Contains (String c' s') (String c t))
      with (String.prefix (String c t) (String c' s') || Contains s' (String c t)) in H.
    apply orb_true_iff in H as [H | H].
    + apply prefix_cons in H as [s'' [= -> _]]. now left.
    + right. now apply IH.
Qed.

Lemma In_Contains_single s c :
  In c (bytes s) → Contains s (String c "") = true.
Proof.
  induction s as [| c' s' IH]; intros H; [destruct H |].
  change (Contains (String c' s') (String c ""))
    with (String.prefix (String c "") (String c' s') || Contains s' (String c "")).
  apply orb_true_iff. destruct H as [-> | H].
  - left. cbn. destruct (ascii_dec c c); [| congruence]. now destruct s'.
  - right. now apply IH.
Qed.

(** ** Runes: decoding, encoding, and [invalidSlug] *)

Ltac split_tests :=
  repeat match goal with
  | |- context [Z.eqb ?a ?b] => destruct (Z.eqb_spec a b)
  | |- context [Z.ltb ?a ?b] => destruct (Z.ltb_spec a b)
  | |- context [Z.leb ?a ?b] => destruct (Z.leb_spec a b)
  | |- context [match ?s with EmptyString => _ | String _ _ => _ end] => destruct s
  end; cbn [orb andb negb].

Lemma decode_ascii c t :
  (byteZ c < 128)%Z → DecodeRuneInString (String c t) = (byteZ c, 1%nat).
Proof.
  intros H. unfold DecodeRuneInString.
  destruct (Z.ltb_spec (byteZ c) 128); [reflexivity | lia].
Qed.

Lemma decode_non_ascii c t :
  (128 ≤ byteZ c)%Z → (128 ≤ (DecodeRuneInString (String c t)).1)%Z.
Proof.
  intros H. unfold DecodeRuneInString, between, RuneError.
  repeat case_match; cbn [fst]; lia.
Qed.

Lemma encode_ascii c :
  (byteZ c < 128)%Z → string_of_rune (byteZ c) = String c "".
Proof.
  intros H. pose proof (byteZ_range c). unfold string_of_rune.
  split_tests; try lia. now rewrite byte_of_byteZ.
Qed.

Lemma encode_non_ascii r :
  (128 ≤ r)%Z → ∃ c t, string_of_rune r = String c t ∧ (128 ≤ byteZ c)%Z.
Proof.
  intros H. unfold string_of_rune.
  assert (r < 2048 → 0 ≤ r / 64 < 32)%Z
    by (intros; split; [apply Z.div_pos | apply Z.div_lt_upper_bound]; lia).
  assert (r < 65536 → 0 ≤ r / 4096 < 16)%Z
    by (intros; split; [apply Z.div_pos | apply Z.div_lt_upper_bound]; lia).
  assert (r ≤ 1114111 → 0 ≤ r / 262144 < 5)%Z
    by (intros; split; [apply Z.div_pos | apply Z.div_lt_upper_bound]; lia).
  split_tests; try lia; eexists _, _; (split; [reflexivity |]);
    rewrite byteZ_byte_of; lia.
Qed.

Lemma not_Contains_non_ascii r :
  (128 ≤ r)%Z → Contains allSlugPossibilities (string_of_rune r) = false.
Proof.
  intros H. destruct (encode_non_ascii r H) as (c & t & -> & Hc).
  destruct (Contains allSlugPossibilities (String c t)) eqn:E; [| reflexivity].
  apply Contains_cons_In, alphabet_is_ascii in E. lia.
Qed.

Lemma invalidSlug_cons_ascii c t :
  (byteZ c < 128)%Z →
  invalidSlug (String c t) =
  negb (Contains allSlugPossibilities (String c "")) || invalidSlug t.
Proof.
  intros H. unfold invalidSlug, range_string.
  cbn [range_from]. rewrite decode_ascii by assumption.
  cbn [pred invalidSlug_loop]. rewrite encode_ascii by assumption.
  now destruct (Contains allSlugPossibilities (String c "")).
Qed.

Lemma invalidSlug_cons_non_ascii c t :
  (128 ≤ byteZ c)%Z → invalidSlug (String c t) = true.
Proof.
  intros H. unfold invalidSlug, range_string. cbn [range_from].
  pose proof (decode_non_ascii c t H) as Hr.
  destruct (DecodeRuneInString (String c t)) as [r w]. cbn [fst] in Hr.
  cbn [invalidSlug_loop]. now rewrite not_Contains_non_ascii.
Qed.

Lemma invalidSlug_alphabetic slug :
  invalidSlug slug = false ↔ alphabetic slug.
Proof.
  unfold alphabetic. induction slug as [| c t IH]; cbn [bytes list_ascii_of_string].
  - split; [constructor | reflexivity].
  - destruct (Z.lt_ge_cases (byteZ c) 128) as [Hc | Hc].
    + rewrite invalidSlug_cons_ascii by assumption.
      rewrite orb_false_iff, negb_false_iff, IH. split.
      * intros [H1 H2]. constructor; [| assumption].
        now apply Contains_cons_In in H1.
      * intros H. apply Forall_cons in H as [H1 H2].
        split; [now apply In_Contains_single | assumption].
    + rewrite invalidSlug_cons_non_ascii by assumption. split; [discriminate |].
      intros H. apply Forall_cons in H as [H1 _].
      apply alphabet_is_ascii in H1. lia.
Qed.

(** ** Random slugs *)

Ltac unfold_M := unfold mbind, M_bind, mret, M_ret, panic, get_world, modify_world.

Lemma set_rand_used_id w : set_rand_used (rand_used w) w = w.
Proof. now destruct w. Qed.

Lemma get_In n s :
  (n < String.length s)%nat → ∃ c, String.get n s = Some c ∧ In c (bytes s).
Proof.
  revert n. induction s as [| c t IH]; intros n Hn; cbn in Hn; [lia |].
  destruct n as [| n]; cbn.
  - eauto.
  - destruct (IH n) as (c' & ? & ?); [lia | eauto].
Qed.

Lemma alphabet_len : len allSlugPossibilities = 62%Z.
Proof. reflexivity. Qed.

Lemma oneSlugEntry_spec w :
  ∃ c, in_alphabet c ∧
       oneSlugEntry w = Returned (byteZ c, set_rand_used (S (rand_used w)) w).
Proof.
  unfold oneSlugEntry. unfold_M. unfold Intn, index. unfold_M.
  rewrite alphabet_len.
  set (v := (Z.of_nat (rand_source w (rand_used w)) mod 62)%Z).
  assert (0 ≤ v < 62)%Z as Hv by (apply Z.mod_pos_bound; lia).
  destruct (get_In (Z.to_nat v) allSlugPossibilities) as (c & Hget & Hin).
  { change (String.length allSlugPossibilities) with (Z.to_nat 62). lia. }
  exists c. split; [exact Hin |].
  cbn [Z.leb Z.compare].
  destruct ((v <? 0)%Z || (62 <=? v)%Z) eqn:E; [lia |].
  now rewrite Hget.
Qed.

Lemma fill_entries_spec n w :
  ∃ cs, length cs = n ∧ Forall in_alphabet cs ∧
        fill_entries n w =
        Returned (byteZ <$> cs, set_rand_used (rand_used w + n) w).
Proof.
  revert w. induction n as [| n IH]; intros w.
  - exists []. repeat split; [constructor |].
    cbn. unfold_M. now rewrite Nat.add_0_r, set_rand_used_id.
  - destruct (oneSlugEntry_spec w) as (c & Hc & E1).
    destruct (IH (set_rand_used (S (rand_used w)) w)) as (cs & Hlen & Hcs & E2).
    exists (c :: cs). split; [cbn; lia |]. split; [now constructor |].
    cbn [fill_entries]. unfold_M. rewrite E1, E2. cbn.
    do 2 f_equal. unfold set_rand_used. cbn. f_equal. lia.
Qed.

Lemma string_of_runes_ascii cs :
  Forall in_alphabet cs → string_of_runes (byteZ <$> cs) = string_of_list_ascii cs.
Proof.
  induction 1 as [| c cs Hc _ IH]; [reflexivity |].
  cbn. rewrite IH, encode_ascii by now apply alphabet_is_ascii. reflexivity.
Qed.

Lemma genSlug_negative cfg w :
  (SpaceConfig cfg < 0)%Z → genSlug cfg w = Panicked "makeslice: len out of range".
Proof.
  intros H. unfold genSlug.
  destruct (Z.ltb_spec (SpaceConfig cfg) 0); [reflexivity | lia].
Qed.

Lemma genSlug_spec cfg w :
  (0 ≤ SpaceConfig cfg)%Z →
  ∃ s, alphabetic s ∧ len s = SpaceConfig cfg ∧
       genSlug cfg w =
       Returned (s, set_rand_used (rand_used w + Z.to_nat (SpaceConfig cfg)) w).
Proof.
  intros H. unfold genSlug.
  destruct (Z.ltb_spec (SpaceConfig cfg) 0); [lia |].
  destruct (fill_entries_spec (Z.to_nat (SpaceConfig cfg)) w)
    as (cs & Hlen & Hcs & E).
  exists (string_of_list_ascii cs).
  unfold alphabetic, bytes, len.
  rewrite list_ascii_of_string_of_list_ascii.
  split; [exact Hcs |]. split.
  - assert (String.length (string_of_list_ascii cs) = length cs) as ->
      by (clear; induction cs; cbn; congruence).
    lia.
  - unfold_M. rewrite E. now rewrite string_of_runes_ascii.
Qed.

Lemma genSlug_returned cfg w s w' :
  genSlug cfg w = Returned (s, w') →
  alphabetic s ∧ len s = SpaceConfig cfg ∧
  w' = set_rand_used (rand_used w + Z.to_nat (SpaceConfig cfg)) w.
Proof.
  intros E. destruct (Z.lt_ge_cases (SpaceConfig cfg) 0) as [Hn | Hn].
  - rewrite genSlug_negative in E by assumption. discriminate.
  - destruct (genSlug_spec cfg w) as (s' & ? & ? & E'); [lia |].
    rewrite E' in E. now injection E as <- <-.
Qed.

(** ** The retry loop of [genUniqueSlug] *)

Lemma attempt_0 cfg w : attempt cfg w 0 = genSlug cfg w.
Proof.
  unfold attempt. now rewrite Nat.mul_0_l, Nat.add_0_r, set_rand_used_id.
Qed.

Lemma attempt_S cfg w k :
  attempt cfg (set_rand_used (rand_used w + Z.to_nat (SpaceConfig cfg)) w) k =
  attempt cfg w (S k).
Proof.
  unfold attempt. f_equal. unfold set_rand_used. cbn. f_equal. lia.
Qed.

Lemma taken_before_S cfg w k :
  taken_before cfg w (S k) ↔
  (∃ s0 w0, genSlug cfg w = Returned (s0, w0) ∧ is_Some (storage w !! s0)) ∧
  taken_before cfg (set_rand_used (rand_used w + Z.to_nat (SpaceConfig cfg)) w) k.
Proof.
  unfold taken_before. split.
  - intros H. split.
    + rewrite <- attempt_0. apply H. lia.
    + intros j Hj. rewrite attempt_S. apply H. lia.
  - intros [H0 H] [| j] Hj.
    + now rewrite attempt_0.
    + rewrite <- attempt_S. apply H. lia.
Qed.

Lemma loop_step cfg a w :
  genUniqueSlug_loop cfg (S a) w =
  match genSlug cfg w with
  | Returned (s, w1) =>
    match storage w1 !! s with
    | None => Returned (s, w1)
    | Some _ => genUniqueSlug_loop cfg a w1
    end
  | Panicked msg => Panicked msg
  end.
Proof.
  cbn [genUniqueSlug_loop]. unfold_M.
  destruct (genSlug cfg w) as [[s w1] | msg]; [| reflexivity].
  now destruct (storage w1 !! s).
Qed.

Lemma loop_returned cfg a w s w' :
  genUniqueSlug_loop cfg a w = Returned (s, w') ↔
  ∃ k, (k < a)%nat ∧ attempt cfg w k = Returned (s, w') ∧
       storage w !! s = None ∧ taken_before cfg w k.
Proof.
  revert w. induction a as [| a IH]; intros w.
  - cbn. split; [discriminate | intros (k & ? & _); lia].
  - rewrite loop_step.
    destruct (genSlug cfg w) as [[s0 w1] | msg] eqn:E0.
    + pose proof (genSlug_returned _ _ _ _ E0) as (_ & _ & ->).
      change (storage (set_rand_used _ w)) with (storage w).
      destruct (storage w !! s0) as [u |] eqn:Es0.
      * rewrite IH. split.
        -- intros (k & Hk & Hatt & Hs & Hbefore).
           exists (S k). rewrite <- attempt_S. split; [lia |].
           split; [exact Hatt |]. split; [exact Hs |].
           apply taken_before_S. split; [| exact Hbefore].
           exists s0. eexists. split; [exact E0 |]. now rewrite Es0.
        -- intros ([| k] & Hk & Hatt & Hs & Hbefore).
           ++ rewrite attempt_0, E0 in Hatt. injection Hatt as -> _. congruence.
           ++ exists k. rewrite attempt_S. split; [lia |].
              split; [exact Hatt |]. split; [exact Hs |].
              now apply taken_before_S in Hbefore.
      * split.
        -- intros [= <- <-]. exists 0%nat. rewrite attempt_0.
           split; [lia |]. split; [exact E0 |]. split; [exact Es0 |].
           intros j Hj. lia.
        -- intros ([| k] & Hk & Hatt & Hs & Hbefore).
           ++ now rewrite attempt_0, E0 in Hatt.
           ++ apply taken_before_S in Hbefore as [(s1 & w1 & E1 & [u Hu]) _].
              rewrite E0 in E1. injection E1 as <- _. congruence.
    + split; [discriminate |].
      intros ([| k] & Hk & Hatt & Hs & Hbefore).
      * rewrite attempt_0 in Hatt. congruence.
      * apply taken_before_S in Hbefore as [(s1 & w1 & E1 & _) _]. congruence.
Qed.

Lemma loop_exhausted cfg a w :
  genUniqueSlug_loop cfg a w = Panicked exhausted ↔ taken_before cfg w a.
Proof.
  revert w. induction a as [| a IH]; intros w.
  - cbn. split; [intros _ j Hj; lia | reflexivity].
  - rewrite loop_step, taken_before_S.
    destruct (genSlug cfg w) as [[s0 w1] | msg] eqn:E0.
    + pose proof (genSlug_returned _ _ _ _ E0) as (_ & _ & ->).
      change (storage (set_rand_used _ w)) with (storage w).
      destruct (storage w !! s0) as [u |] eqn:Es0.
      * rewrite IH. split; [| tauto]. intros H. split; [| exact H].
        exists s0. eexists. split; [reflexivity |]. now rewrite Es0.
      * split; [discriminate |].
        intros [(s1 & w1 & [= <- <-] & [u Hu]) _]. congruence.
    + split.
      * intros [= ->]. exfalso.
        destruct (Z.lt_ge_cases (SpaceConfig cfg) 0) as [Hn | Hn].
        -- rewrite genSlug_negative in E0 by assumption. discriminate.
        -- destruct (genSlug_spec cfg w) as (? & _ & _ & E); [lia | congruence].
      * intros [(s1 & w1 & [=] & _) _].
Qed.


(** ** The handler, branch by branch *)

Section Handler.
Variables (cfg : Flags) (h : Host).

Lemma storage_writeStorage w : storage (writeStorage h w) = storage w.
Proof. unfold writeStorage. now destruct (tempFileOk h). Qed.

Lemma storageReverse_writeStorage w :
  storageReverse (writeStorage h w) = storageReverse w.
Proof. unfold writeStorage. now destruct (tempFileOk h). Qed.

Lemma storage_added slug url w :
  storage (added h slug url w) = <[slug := url]> (storage w).
Proof. unfold added. now rewrite storage_writeStorage. Qed.

Lemma storageReverse_added slug url w :
  storageReverse (added h slug url w) = storageReverse w.
Proof. unfold added. now rewrite storageReverse_writeStorage. Qed.

(** The guard of line 151 is the negation of [acceptable]. *)
Lemma guard_acceptable w slug :
  String.eqb slug "" || invalidSlug slug
    || bool_decide (is_Some (storage w !! slug)) = false ↔ acceptable w slug.
Proof.
  unfold acceptable.
  rewrite !orb_false_iff, String.eqb_neq, invalidSlug_alphabetic,
    bool_decide_eq_false, <- eq_None_not_Some.
  tauto.
Qed.

Lemma handler_submit r w :
  Method r = "POST" → Path r = "/submit" →
  handler cfg h r w =
  if String.eqb (PostFormValue r "secret") (SecretConfig cfg)
     && negb (String.eqb (PostFormValue r "url") "")
  then match storageReverse w !! PostFormValue r "url" with
       | Some existingSlug =>
         Returned (Write (Sprintf_slash (ServerNameConfig cfg) existingSlug), w)
       | None =>
         match pick cfg w (PostFormValue r "slug") with
         | Returned (s, w1) =>
           Returned (Write (Sprintf_slash (ServerNameConfig cfg) s),
                     added h s (PostFormValue r "url") w1)
         | Panicked msg => Panicked msg
         end
       end
  else Returned (Error "Not authorized" StatusUnauthorized, w).
Proof.
  intros HM HP. unfold handler. rewrite HM, HP. cbn [String.eqb Ascii.eqb Bool.eqb andb].
  destruct (_ && _); [| reflexivity].
  unfold_M. destruct (storageReverse w !! _); [reflexivity |].
  unfold pick.
  destruct (_ || _); [| reflexivity].
  now destruct (genUniqueSlug cfg w) as [[s w1] | msg].
Qed.

Lemma handler_resolve r w :
  Method r = "GET" ∨ Method r = "HEAD" →
  handler cfg h r w =
  match storage w !! TrimPrefix_slash (Path r) with
  | Some url => Returned (Redirect url StatusMovedPermanently, w)
  | None => Returned (NotFound, w)
  end.
Proof.
  intros [HM | HM]; unfold handler; rewrite HM; cbn [String.eqb Ascii.eqb Bool.eqb andb orb];
    unfold_M; now destruct (storage w !! _).
Qed.

Lemma pick_acceptable w slug :
  acceptable w slug → pick cfg w slug = Returned (slug, w).
Proof. intros H. unfold pick. now apply guard_acceptable in H as ->. Qed.

Lemma pick_unacceptable w slug :
  ¬ acceptable w slug → pick cfg w slug = genUniqueSlug cfg w.
Proof.
  intros H. unfold pick. rewrite <- guard_acceptable in H.
  now destruct (_ || _).
Qed.

Lemma genUniqueSlug_returned w s w1 :
  genUniqueSlug cfg w = Returned (s, w1) →
  alphabetic s ∧ len s = SpaceConfig cfg ∧ storage w !! s = None ∧
  storage w1 = storage w ∧ storageReverse w1 = storageReverse w ∧
  file w1 = file w.
Proof.
  intros E. apply loop_returned in E as (k & _ & Hatt & Hs & _).
  apply genSlug_returned in Hatt as (? & ? & ->). repeat split; auto.
Qed.

Lemma pick_returned w slug s w1 :
  pick cfg w slug = Returned (s, w1) →
  storage w !! s = None ∧ storage w1 = storage w ∧
  storageReverse w1 = storageReverse w.
Proof.
  unfold pick. destruct (_ || _) eqn:G.
  - intros E. apply genUniqueSlug_returned in E. tauto.
  - intros [= <- <-]. apply guard_acceptable in G as (_ & _ & ?). auto.
Qed.
End Handler.

Lemma acceptable_or_not w slug : acceptable w slug ∨ ¬ acceptable w slug.
Proof.
  rewrite <- guard_acceptable. destruct (_ || _); [right | left]; congruence.
Qed.

Section Resubmission.
Variables (cfg : Flags) (h : Host).

(** A submission never touches the reverse map. *)
Lemma handler_storageReverse r w resp w' :
  handler cfg h r w = Returned (resp, w') →
  storageReverse w' = storageReverse w.
Proof.
  destruct (String.eqb (Method r) "POST" && String.eqb (Path r) "/submit") eqn:E.
  - apply andb_true_iff in E as [HM%String.eqb_eq HP%String.eqb_eq].
    rewrite (handler_submit cfg h r w HM HP).
    destruct (_ && _); [| now intros [= _ <-]].
    destruct (storageReverse w !! _); [now intros [= _ <-] |].
    destruct (pick cfg w _) as [[s w1] | msg] eqn:Ep; [| discriminate].
    intros [= _ <-]. apply pick_returned in Ep as (_ & _ & ?).
    now rewrite storageReverse_added.
  - unfold handler. rewrite E.
    destruct (_ || _); unfold_M.
    + destruct (storage w !! _); now intros [= _ <-].
    + now intros [= _ <-].
Qed.

(** Submitting a fresh URL a second time stores it under a second slug. *)
Lemma resubmission_never_deduplicated r w s1 w1 :
  Method r = "POST" → Path r = "/submit" →
  PostFormValue r "secret" = SecretConfig cfg →
  PostFormValue r "url" ≠ "" →
  storageReverse w !! PostFormValue r "url" = None →
  handler cfg h r w = Returned (Write (ServerNameConfig cfg ++ "/" ++ s1), w1) →
  match handler cfg h r w1 with
  | Returned (resp, w2) =>
    ∃ s2, resp = Write (ServerNameConfig cfg ++ "/" ++ s2) ∧ s2 ≠ s1 ∧
          storage w2 !! s1 = Some (PostFormValue r "url") ∧
          storage w2 !! s2 = Some (PostFormValue r "url")
  | Panicked msg => genUniqueSlug cfg w1 = Panicked msg
  end.
Proof.
  intros HM HP Hsecret Hurl Hfresh E1.
  pose proof (handler_storageReverse _ _ _ _ E1) as Hrev.
  rewrite (handler_submit cfg h r w HM HP), Hsecret, String.eqb_refl, Hfresh in E1.
  pose proof Hurl as Hurl'. apply String.eqb_neq in Hurl'.
  rewrite Hurl' in E1. cbn [negb andb] in E1.
  destruct (pick cfg w _) as [[s w0] | msg] eqn:Ep; [| discriminate].
  injection E1 as Es <-.
  assert (s = s1) as ->.
  { clear -Es. induction (ServerNameConfig cfg) as [| c t IH]; cbn in Es.
    - now injection Es.
    - injection Es as Es. now apply IH. }
  assert (storage (added h s1 (PostFormValue r "url") w0) !! s1 =
          Some (PostFormValue r "url")) as Hs1
    by now rewrite storage_added, lookup_insert_eq.
  rewrite (handler_submit cfg h r _ HM HP), Hsecret, String.eqb_refl, Hrev, Hfresh,
    Hurl'.
  cbn [negb andb].
  destruct (pick cfg (added _ _ _ _) _) as [[s2 w2] | msg] eqn:Ep2.
  - apply pick_returned in Ep2 as (Hnone & Hst & _).
    assert (s2 ≠ s1) by (intros ->; congruence).
    exists s2. split; [reflexivity |]. split; [assumption |].
    rewrite storage_added. split.
    * rewrite lookup_insert_ne by assumption. now rewrite Hst.
    * apply lookup_insert_eq.
  - unfold pick in Ep2.
    destruct (_ || _) eqn:G; [exact Ep2 | discriminate].
Qed.
End Resubmission.

(** ** Lines, cuts and the scanner *)

Lemma append_cons c a b : String c a ++ b = String c (a ++ b).
Proof. reflexivity. Qed.

Lemma append_empty b : "" ++ b = b.
Proof. reflexivity. Qed.

Lemma bytes_app a b : bytes (a ++ b) = (bytes a ++ bytes b)%list.
Proof.
  unfold bytes. induction a as [| c a IH]; [reflexivity |].
  rewrite append_cons. cbn. now rewrite IH.
Qed.

Lemma free_of_cons c x s : free_of c (String x s) ↔ x ≠ c ∧ free_of c s.
Proof. unfold free_of. cbn. firstorder. Qed.

Lemma free_of_check c s :
  forallb (λ x, negb (Ascii.eqb x c)) (bytes s) = true → free_of c s.
Proof.
  unfold free_of, bytes. induction s as [| x s IH]; cbn; [tauto |].
  intros [Hx Hs]%andb_true_iff [-> | Hin]; [| now apply IH].
  now rewrite Ascii.eqb_refl in Hx.
Qed.

Lemma free_of_app c a b : free_of c (a ++ b) ↔ free_of c a ∧ free_of c b.
Proof. unfold free_of. rewrite bytes_app, in_app_iff. tauto. Qed.

Lemma alphabetic_free_of c s :
  ¬ in_alphabet c → alphabetic s → free_of c s.
Proof.
  intros Hc Hs Hin. apply Hc. unfold alphabetic in Hs.
  rewrite Forall_forall in Hs. apply Hs. now apply list_elem_of_In.
Qed.

(** *** [cut] and [SplitN] *)

Lemma cut_app sep a b :
  free_of sep a → cut sep (a ++ String sep b) = Some (a, b).
Proof.
  induction a as [| c a IH]; intros H.
  - rewrite append_empty. cbn. now rewrite Ascii.eqb_refl.
  - rewrite append_cons. cbn. apply free_of_cons in H as [Hc Ha].
    apply Ascii.eqb_neq in Hc. now rewrite Hc, IH.
Qed.

Lemma cut_None sep s : free_of sep s → cut sep s = None.
Proof.
  induction s as [| c s IH]; intros H; cbn; [reflexivity |].
  apply free_of_cons in H as [Hc Hs].
  apply Ascii.eqb_neq in Hc. now rewrite Hc, IH.
Qed.

Lemma cut_Some sep s a b :
  cut sep s = Some (a, b) → s = a ++ String sep b ∧ free_of sep a.
Proof.
  revert a. induction s as [| c s IH]; intros a; cbn; [discriminate |].
  destruct (Ascii.eqb_spec c sep) as [-> | Hc].
  - intros [= <- <-]. split; [reflexivity | intros []].
  - destruct (cut sep s) as [[a' b'] |]; [| discriminate].
    intros [= <- <-]. destruct (IH a' eq_refl) as [-> Ha].
    split; [reflexivity |]. now apply free_of_cons.
Qed.

(** *** The effect of one line *)

Lemma readLine_cut w line :
  readLine w line =
  match cut space line with
  | Some (slug, url) =>
    set_maps (<[slug := url]> (storage w)) (<[url := slug]> (storageReverse w)) w
  | None => w
  end.
Proof.
  unfold readLine, SplitN_space_2. now destruct (cut space line) as [[a b] |].
Qed.

Lemma readLine_skip w line : free_of space line → readLine w line = w.
Proof. intros H. now rewrite readLine_cut, cut_None. Qed.

Lemma readLine_entry w slug url :
  free_of space slug →
  readLine w (slug ++ " " ++ url) =
  set_maps (<[slug := url]> (storage w)) (<[url := slug]> (storageReverse w)) w.
Proof.
  intros H. rewrite readLine_cut.
  change (slug ++ " " ++ url) with (slug ++ String space url).
  now rewrite cut_app.
Qed.

(** *** Lines *)

Lemma newline_fields_nonempty s : newline_fields s ≠ [].
Proof.
  destruct s as [| c s]; cbn; [discriminate |].
  destruct (Ascii.eqb c newline); [discriminate |].
  now destruct (newline_fields s).
Qed.

Lemma newline_fields_line l rest :
  free_of newline l →
  newline_fields (l ++ String newline rest) = l :: newline_fields rest.
Proof.
  induction l as [| c l IH]; intros H.
  - rewrite append_empty. cbn.
    change (Ascii.eqb newline newline) with true. reflexivity.
  - rewrite append_cons. cbn. apply free_of_cons in H as [Hc Hl].
    apply Ascii.eqb_neq in Hc. now rewrite Hc, IH.
Qed.

Lemma raw_lines_cons l fields :
  fields ≠ [] → raw_lines (l :: fields) = l :: raw_lines fields.
Proof. now destruct fields. Qed.

Lemma raw_lines_line l rest :
  free_of newline l →
  raw_lines (newline_fields (l ++ String newline rest)) =
  l :: raw_lines (newline_fields rest).
Proof.
  intros H. rewrite newline_fields_line by assumption.
  apply raw_lines_cons, newline_fields_nonempty.
Qed.

Lemma dropCR_app a c b : dropCR (a ++ String c b) = a ++ dropCR (String c b).
Proof.
  induction a as [| x a IH]; [reflexivity |].
  rewrite !append_cons, <- IH.
  destruct a; reflexivity.
Qed.

Lemma dropCR_id s : ¬ ends_with_cr s → dropCR s = s.
Proof.
  induction s as [| c s IH]; intros H; [reflexivity |].
  destruct s as [| c' s'].
  - cbn. destruct (Ascii.eqb_spec c carriage_return) as [-> | ]; [| reflexivity].
    destruct H. now exists "".
  - change (dropCR (String c (String c' s'))) with (String c (dropCR (String c' s'))).
    f_equal. apply IH.
    intros [t Ht]. apply H. exists (String c t). now rewrite append_cons, <- Ht.
Qed.

Lemma dropCR_cr s : dropCR (s ++ String carriage_return "") = s.
Proof.
  rewrite dropCR_app.
  change (dropCR (String carriage_return "")) with "".
  induction s as [| c s IH]; [reflexivity |].
  rewrite append_cons. congruence.
Qed.

Lemma dropCR_entry slug url :
  dropCR (entry_line slug url) = entry_line slug (dropCR url).
Proof.
  unfold entry_line. rewrite dropCR_app. f_equal.
  destruct url as [| c u]; [reflexivity |].
  reflexivity.
Qed.

Lemma scan_tokens_short ls :
  Forall short ls → scan_tokens ls = (dropCR <$> ls, false).
Proof.
  induction 1 as [| l ls Hl _ IH]; [reflexivity |].
  cbn [scan_tokens]. unfold short in Hl.
  destruct (Nat.leb_spec MaxScanTokenSize (String.length l)); [lia |].
  now rewrite IH.
Qed.

(** The scanner delivers the lines that precede the first long one. *)
Lemma scan_tokens_spec ls :
  ∃ n, (scan_tokens ls).1 = dropCR <$> take n ls ∧
       Forall short (take n ls) ∧
       ((n = length ls ∧ (scan_tokens ls).2 = false) ∨
        (∃ l, ls !! n = Some l ∧ ¬ short l ∧ (scan_tokens ls).2 = true)).
Proof.
  induction ls as [| l ls (n & Htok & Hshort & Hend)].
  - exists 0%nat. split; [reflexivity |]. split; [constructor |].
    left. split; reflexivity.
  - cbn [scan_tokens].
    destruct (Nat.leb_spec MaxScanTokenSize (String.length l)) as [Hl | Hl].
    + exists 0%nat. split; [reflexivity |]. split; [constructor |].
      right. exists l. split; [reflexivity |]. split; [| reflexivity].
      unfold short. lia.
    + exists (S n). destruct (scan_tokens ls) as [toks err].
      cbn [fst snd] in *. rewrite Htok.
      split; [reflexivity |]. split; [constructor; [exact Hl | exact Hshort] |].
      destruct Hend as [[-> ->] | (l' & Hl' & Hlong & ->)].
      * left. split; reflexivity.
      * right. exists l'. split; [exact Hl' |]. split; [exact Hlong | reflexivity].
Qed.

(** ** The maps after loading *)

(** *** Folding the lines into the maps *)

Lemma storage_foldl_readLine lines w :
  storage (foldl readLine w lines) =
  foldl (λ m p, <[p.1 := p.2]> m) (storage w) (omap (cut space) lines).
Proof.
  revert w. induction lines as [| l lines IH]; intros w; [reflexivity |].
  cbn [foldl omap list_omap]. rewrite IH, readLine_cut.
  now destruct (cut space l) as [[a b] |].
Qed.

Lemma storageReverse_foldl_readLine lines w :
  storageReverse (foldl readLine w lines) =
  foldl (λ m p, <[p.2 := p.1]> m) (storageReverse w) (omap (cut space) lines).
Proof.
  revert w. induction lines as [| l lines IH]; intros w; [reflexivity |].
  cbn [foldl omap list_omap]. rewrite IH, readLine_cut.
  now destruct (cut space l) as [[a b] |].
Qed.

Section Fold.
Context {A : Type} (key val : A → string).

(** Later insertions win: the value under [k] comes from the last element
    with that key. *)
Lemma foldl_insert_lookup ps (m : gmap string string) k v :
  foldl (λ m p, <[key p := val p]> m) m ps !! k = Some v ↔
  (∃ before p after, ps = (before ++ p :: after)%list ∧ key p = k ∧ val p = v ∧
                     Forall (λ q, key q ≠ k) after) ∨
  (m !! k = Some v ∧ Forall (λ q, key q ≠ k) ps).
Proof.
  revert m. induction ps as [| p ps IH]; intros m.
  - cbn. split.
    + intros H. right. split; [exact H | constructor].
    + intros [(before & p & after & H & _) | [H _]]; [| exact H].
      now destruct before.
  - cbn [foldl]. rewrite IH. split.
    + intros [(before & p0 & after & -> & Hk & Hv & Hafter) | [Hm Hps]].
      * left. exists (p :: before), p0, after. auto.
      * destruct (decide (key p = k)) as [Hp | Hp].
        -- rewrite Hp, lookup_insert_eq in Hm. injection Hm as Hm.
           left. exists [], p, ps. auto.
        -- rewrite lookup_insert_ne in Hm by exact Hp.
           right. split; [exact Hm | now constructor].
    + intros [(before & p0 & after & Heq & Hk & Hv & Hafter) | [Hm Hps]].
      * destruct before as [| b before]; cbn in Heq; injection Heq as -> ->.
        -- right. rewrite Hk, lookup_insert_eq, Hv. auto.
        -- left. exists before, p0, after. auto.
      * apply Forall_cons in Hps as [Hp Hps].
        right. rewrite lookup_insert_ne by exact Hp. auto.
Qed.

Lemma foldl_insert_is_Some ps (m : gmap string string) p :
  p ∈ ps → is_Some (foldl (λ m p, <[key p := val p]> m) m ps !! key p).
Proof.
  revert m. induction ps as [| q ps IH] using rev_ind; intros m Hp.
  - now apply elem_of_nil in Hp.
  - rewrite foldl_snoc. apply elem_of_app in Hp as [Hp | Hp].
    + destruct (decide (key q = key p)) as [-> | Hq].
      * rewrite lookup_insert_eq. eauto.
      * rewrite lookup_insert_ne by exact Hq. now apply IH.
    + apply list_elem_of_singleton in Hp as ->. rewrite lookup_insert_eq. eauto.
Qed.
End Fold.

Lemma omap_decompose {A B} (f : A → option B) lines before' p after' :
  omap f lines = (before' ++ p :: after')%list →
  ∃ before y after, lines = (before ++ y :: after)%list ∧ f y = Some p ∧
                    omap f before = before' ∧ omap f after = after'.
Proof.
  revert before'. induction lines as [| x xs IH]; intros before' H.
  - now destruct before'.
  - cbn in H. destruct (f x) as [q |] eqn:Ex.
    + destruct before' as [| b before']; cbn in H; injection H as -> H.
      * exists [], x, xs. auto.
      * destruct (IH _ H) as (before & y & after & -> & Hy & <- & <-).
        exists (x :: before), y, after. cbn. now rewrite Ex.
    + destruct (IH _ H) as (before & y & after & -> & Hy & <- & <-).
      exists (x :: before), y, after. cbn. now rewrite Ex.
Qed.

(** The forward map after loading: the URL of a slug is taken from the last
    line that starts with the slug and a space. *)
Lemma storage_loaded lines f src slug url :
  storage (foldl readLine (init f src) lines) !! slug = Some url ↔
  ∃ before after,
    lines = (before ++ (slug ++ " " ++ url)%string :: after)%list ∧
    free_of space slug ∧ ∀ u, slug ++ " " ++ u ∉ after.
Proof.
  rewrite storage_foldl_readLine, (foldl_insert_lookup fst snd). cbn [storage init].
  rewrite lookup_empty. split.
  - intros [(before' & [s u] & after' & H & Hk & Hv & Hafter) | [[=] _]].
    cbn in Hk, Hv. subst s u.
    apply omap_decompose in H as (before & y & after & -> & Hy & _ & <-).
    apply cut_Some in Hy as [-> Hfree].
    exists before, after. split; [reflexivity |]. split; [exact Hfree |].
    intros u Hu. rewrite Forall_forall in Hafter.
    apply (Hafter (slug, u)); [| reflexivity].
    apply list_elem_of_omap. exists (slug ++ " " ++ u). split; [exact Hu |].
    now apply cut_app.
  - intros (before & after & -> & Hfree & Hafter). left.
    exists (omap (cut space) before), (slug, url), (omap (cut space) after).
    split.
    { rewrite omap_app. cbn.
      change (slug ++ " " ++ url) with (slug ++ String space url).
      now rewrite cut_app. }
    split; [reflexivity |]. split; [reflexivity |].
    apply Forall_forall. intros [s u] Hq Hs. cbn in Hs. subst s.
    apply list_elem_of_omap in Hq as (y & Hy & Hcut).
    apply cut_Some in Hcut as [-> _]. now apply (Hafter u).
Qed.

(** The reverse map after loading: the slug of a URL is taken from the last
    line that consists of a slug, a space and the URL. *)
Lemma storageReverse_loaded lines f src slug url :
  storageReverse (foldl readLine (init f src) lines) !! url = Some slug ↔
  ∃ before after,
    lines = (before ++ (slug ++ " " ++ url)%string :: after)%list ∧
    free_of space slug ∧ ∀ s, free_of space s → s ++ " " ++ url ∉ after.
Proof.
  rewrite storageReverse_foldl_readLine, (foldl_insert_lookup snd fst).
  cbn [storageReverse init]. rewrite lookup_empty. split.
  - intros [(before' & [s u] & after' & H & Hk & Hv & Hafter) | [[=] _]].
    cbn in Hk, Hv. subst s u.
    apply omap_decompose in H as (before & y & after & -> & Hy & _ & <-).
    apply cut_Some in Hy as [-> Hfree].
    exists before, after. split; [reflexivity |]. split; [exact Hfree |].
    intros s Hs Hin. rewrite Forall_forall in Hafter.
    apply (Hafter (s, url)); [| reflexivity].
    apply list_elem_of_omap. exists (s ++ " " ++ url). split; [exact Hin |].
    now apply cut_app.
  - intros (before & after & -> & Hfree & Hafter). left.
    exists (omap (cut space) before), (slug, url), (omap (cut space) after).
    split.
    { rewrite omap_app. cbn.
      change (slug ++ " " ++ url) with (slug ++ String space url).
      now rewrite cut_app. }
    split; [reflexivity |]. split; [reflexivity |].
    apply Forall_forall. intros [s u] Hq Hu. cbn in Hu. subst u.
    apply list_elem_of_omap in Hq as (y & Hy & Hcut).
    apply cut_Some in Hcut as [-> Hs]. now apply (Hafter s).
Qed.

(** ** What [writeStorage] prints is read back *)

Lemma Replace_newlines_free s : free_of newline (Replace_newlines s).
Proof.
  induction s as [| c s IH]; [intros [] |]. cbn.
  destruct (Ascii.eqb_spec c newline) as [-> | Hc]; [exact IH |].
  now apply free_of_cons.
Qed.

Lemma entry_line_app slug url rest :
  slug ++ String space (url ++ rest) = entry_line slug url ++ rest.
Proof.
  unfold entry_line. induction slug as [| c s IH]; [reflexivity |].
  rewrite !append_cons. now rewrite IH.
Qed.

Lemma length_entry_line slug url :
  String.length (entry_line slug url) = (String.length slug + 1 + String.length url)%nat.
Proof.
  unfold entry_line. induction slug as [| c s IH]; [reflexivity |].
  rewrite append_cons. cbn [String.length]. lia.
Qed.

Lemma storable_short p : storable p → short (written p).
Proof.
  intros (_ & _ & _ & H). unfold short, written, MaxScanTokenSize.
  rewrite length_entry_line. unfold len in H. lia.
Qed.

Lemma raw_lines_storage_text l :
  Forall storable l →
  raw_lines (newline_fields (storage_text l)) = written <$> l.
Proof.
  induction 1 as [| [slug url] l Hp _ IH]; [reflexivity |].
  cbn [storage_text fmap list_fmap]. rewrite entry_line_app.
  destruct Hp as (_ & Hnl & _ & _). cbn [fst snd] in Hnl.
  rewrite raw_lines_line, IH; [reflexivity |].
  unfold entry_line. apply free_of_app. split; [exact Hnl |].
  apply free_of_cons. split; [discriminate | apply Replace_newlines_free].
Qed.

Lemma Scanner_storage_text l :
  Forall storable l → Scanner (storage_text l) = (written <$> l, false).
Proof.
  intros H. unfold Scanner. rewrite raw_lines_storage_text by exact H.
  rewrite scan_tokens_short.
  - f_equal. rewrite <- list_fmap_compose. apply list_fmap_ext.
    intros i p Hp%list_elem_of_lookup_2. rewrite Forall_forall in H.
    destruct (H p Hp) as (_ & _ & Hcr & _).
    cbn. unfold written. rewrite dropCR_entry. now rewrite (dropCR_id _ Hcr).
  - apply Forall_fmap. eapply Forall_impl; [exact H |]. apply storable_short.
Qed.

Lemma omap_cut_written l :
  Forall storable l →
  omap (cut space) (written <$> l) = prod_map id Replace_newlines <$> l.
Proof.
  induction 1 as [| [slug url] l Hp _ IH]; [reflexivity |].
  cbn [fmap list_fmap omap list_omap]. fold (omap (cut space) (written <$> l)).
  rewrite IH. unfold written, entry_line. cbn [fst snd].
  destruct Hp as (Hsp & _). cbn [fst] in Hsp.
  now rewrite cut_app.
Qed.

Lemma foldl_insert_list_to_map (ps : list (string * string)) :
  NoDup ps.*1 →
  foldl (λ m p, <[p.1 := p.2]> m) (∅ : gmap string string) ps = list_to_map ps.
Proof.
  induction ps as [| [k v] ps IH] using rev_ind; intros Hnd; [reflexivity |].
  rewrite fmap_app in Hnd. apply NoDup_app in Hnd as (Hnd & Hk & _).
  rewrite foldl_snoc, IH by exact Hnd. cbn [fst snd].
  rewrite list_to_map_snoc; [reflexivity |].
  intros Hin. apply (Hk k Hin). cbn. apply list_elem_of_here.
Qed.

Lemma length_app_string a b :
  String.length (a ++ b) = (String.length a + String.length b)%nat.
Proof.
  induction a as [| c a IH]; [reflexivity |].
  rewrite append_cons. cbn [String.length]. lia.
Qed.

Lemma dropCR_fixed s : dropCR s = s → ¬ ends_with_cr s.
Proof.
  intros H [t Ht]. rewrite Ht, dropCR_cr in H.
  apply (f_equal String.length) in H. rewrite length_app_string in H.
  cbn in H. lia.
Qed.

Lemma startup_Some content src :
  startup (Some content) src =
  foldl readLine (init (Some content) src) (Scanner content).1.
Proof. reflexivity. Qed.

Lemma Scanner_short content :
  Forall short (raw_lines (newline_fields content)) →
  Scanner content = (dropCR <$> raw_lines (newline_fields content), false).
Proof. apply scan_tokens_short. Qed.

Lemma replicate_byte_free c x n : x ≠ c → free_of c (replicate_byte n x).
Proof.
  intros H. induction n as [| n IH]; [intros [] |].
  cbn. now apply free_of_cons.
Qed.

Lemma length_replicate_byte n x : String.length (replicate_byte n x) = n.
Proof. induction n as [| n IH]; cbn; congruence. Qed.

(** *** Slugs of reachable states contain neither spaces nor newlines *)

Lemma newline_fields_free s : Forall (free_of newline) (newline_fields s).
Proof.
  induction s as [| c s IH]; cbn.
  - repeat constructor. intros [].
  - destruct (Ascii.eqb_spec c newline) as [-> | Hc].
    + constructor; [intros [] | exact IH].
    + destruct (newline_fields s) as [| l ls].
      * repeat constructor. apply free_of_cons. split; [exact Hc | intros []].
      * apply Forall_cons in IH as [Hl Hls].
        constructor; [| exact Hls]. now apply free_of_cons.
Qed.

Lemma raw_lines_Forall (P : string → Prop) fields :
  Forall P fields → Forall P (raw_lines fields).
Proof.
  induction 1 as [| l ls Hl Hls IH]; [constructor |].
  destruct ls as [| l' ls'].
  - cbn. destruct (String.eqb l ""); repeat constructor. exact Hl.
  - rewrite raw_lines_cons by discriminate. now constructor.
Qed.

Lemma dropCR_free c s : free_of c s → free_of c (dropCR s).
Proof.
  induction s as [| x s IH]; [trivial |].
  intros [Hx Hs]%free_of_cons. destruct s as [| x' s'].
  - cbn. destruct (Ascii.eqb x carriage_return); [intros [] |].
    now apply free_of_cons.
  - change (dropCR (String x (String x' s'))) with (String x (dropCR (String x' s'))).
    apply free_of_cons. auto.
Qed.

Lemma scan_tokens_free ls :
  Forall (free_of newline) ls → Forall (free_of newline) (scan_tokens ls).1.
Proof.
  induction 1 as [| l ls Hl _ IH]; [constructor |].
  cbn [scan_tokens]. destruct (MaxScanTokenSize <=? String.length l)%nat; [constructor |].
  destruct (scan_tokens ls) as [toks err]. cbn [fst] in *.
  constructor; [now apply dropCR_free | exact IH].
Qed.

Lemma Scanner_free content : Forall (free_of newline) (Scanner content).1.
Proof.
  apply scan_tokens_free, raw_lines_Forall, newline_fields_free.
Qed.

Lemma not_in_alphabet c :
  existsb (Ascii.eqb c) (bytes allSlugPossibilities) = false → ¬ in_alphabet c.
Proof.
  intros H Hin. unfold in_alphabet in Hin.
  assert (existsb (Ascii.eqb c) (bytes allSlugPossibilities) = true); [| congruence].
  apply existsb_exists. exists c. split; [exact Hin | apply Ascii.eqb_refl].
Qed.

Lemma alphabetic_clean s : alphabetic s → free_of space s ∧ free_of newline s.
Proof.
  intros H. split; (apply alphabetic_free_of; [| exact H]);
    apply not_in_alphabet; reflexivity.
Qed.

Lemma clean_insert w slug url w' :
  clean_slugs w → free_of space slug → free_of newline slug →
  storage w' = <[slug := url]> (storage w) → clean_slugs w'.
Proof.
  intros Hw Hs Hn E s u. rewrite E.
  intros [[<- _] | [_ H]]%lookup_insert_Some; [auto | eauto].
Qed.

Lemma readLine_clean w line :
  free_of newline line → clean_slugs w → clean_slugs (readLine w line).
Proof.
  intros Hline Hw. rewrite readLine_cut.
  destruct (cut space line) as [[slug url] |] eqn:E; [| exact Hw].
  apply cut_Some in E as [-> Hslug].
  apply free_of_app in Hline as [Hnl _].
  now apply (clean_insert w slug url).
Qed.

Lemma startup_clean f src : clean_slugs (startup f src).
Proof.
  assert (clean_slugs (init f src)) as Hinit.
  { intros slug url. cbn. now rewrite lookup_empty. }
  destruct f as [content |]; [| exact Hinit].
  rewrite startup_Some. pose proof (Scanner_free content) as Hfree.
  revert Hinit. generalize (init (Some content) src).
  induction Hfree as [| l ls Hl _ IH]; intros w Hw; [exact Hw |].
  cbn [foldl]. apply IH. now apply readLine_clean.
Qed.

Section Clean.
Variables (cfg : Flags) (h : Host).

Lemma handler_clean r w resp w' :
  clean_slugs w → handler cfg h r w = Returned (resp, w') → clean_slugs w'.
Proof.
  intros Hw.
  destruct (String.eqb (Method r) "POST" && String.eqb (Path r) "/submit") eqn:E.
  - apply andb_true_iff in E as [HM%String.eqb_eq HP%String.eqb_eq].
    rewrite (handler_submit cfg h r w HM HP).
    destruct (_ && _); [| now intros [= _ <-]].
    destruct (storageReverse w !! _); [now intros [= _ <-] |].
    destruct (pick cfg w _) as [[s w1] | msg] eqn:Ep; [| discriminate].
    intros [= _ <-].
    assert (alphabetic s ∧ storage w1 = storage w) as [Hs Hst].
    { unfold pick in Ep. destruct (_ || _) eqn:G.
      - apply genUniqueSlug_returned in Ep. tauto.
      - injection Ep as <- <-. apply guard_acceptable in G as (_ & ? & _). auto. }
    apply alphabetic_clean in Hs as [Hsp Hnl].
    apply (clean_insert w s (PostFormValue r "url")); [assumption .. |].
    now rewrite storage_added, Hst.
  - unfold handler. rewrite E.
    destruct (_ || _); unfold_M.
    + destruct (storage w !! _); now intros [= _ <-].
    + now intros [= _ <-].
Qed.

Lemma serve_clean rs w resps w' :
  clean_slugs w → serve cfg h rs w = Returned (resps, w') → clean_slugs w'.
Proof.
  revert w resps. induction rs as [| r rs IH]; intros w resps Hw.
  - now intros [= _ <-].
  - cbn [serve]. unfold_M.
    destruct (handler cfg h r w) as [[resp w1] | msg] eqn:E1; [| discriminate].
    destruct (serve cfg h rs w1) as [[resps' w2] | msg] eqn:E2; [| discriminate].
    intros [= _ <-]. eapply IH; [| exact E2].
    eapply handler_clean; eassumption.
Qed.

(** A URL that the reverse map knows is answered with its slug, and
    nothing changes. *)
Lemma known_url_deduplicated r w slug :
  Method r = "POST" → Path r = "/submit" →
  PostFormValue r "secret" = SecretConfig cfg →
  PostFormValue r "url" ≠ "" →
  storageReverse w !! PostFormValue r "url" = Some slug →
  handler cfg h r w = Returned (Write (ServerNameConfig cfg ++ "/" ++ slug), w).
Proof.
  intros HM HP Hs Hu Hrev.
  rewrite (handler_submit cfg h r w HM HP), Hs, String.eqb_refl, Hrev.
  apply String.eqb_neq in Hu. now rewrite Hu.
Qed.
End Clean.

(** *** Loading keeps the two maps consistent when nothing is repeated *)

Lemma foldl_insert_swap_list_to_map (ps : list (string * string)) :
  NoDup ps.*2 →
  foldl (λ m p, <[p.2 := p.1]> m) (∅ : gmap string string) ps =
  list_to_map (prod_swap <$> ps).
Proof.
  induction ps as [| [k v] ps IH] using rev_ind; intros Hnd; [reflexivity |].
  rewrite fmap_app in Hnd. apply NoDup_app in Hnd as (Hnd & Hv & _).
  rewrite foldl_snoc, IH, fmap_app by exact Hnd. cbn [fst snd].
  change (prod_swap <$> [(k, v)]) with [(v, k)].
  rewrite list_to_map_snoc; [reflexivity |].
  rewrite <- list_fmap_compose. intros Hin.
  apply (Hv v); [| cbn; apply list_elem_of_here].
  erewrite list_fmap_ext; [exact Hin | now intros i [??]].
Qed.

(** [readStorage] writes both maps: when no slug and no URL occurs on two of
    the lines that are loaded, forward and reverse map hold the same pairs. *)
Lemma load_consistent content src :
  NoDup (omap (cut space) (Scanner content).1).*1 →
  NoDup (omap (cut space) (Scanner content).1).*2 →
  consistent (startup (Some content) src).
Proof.
  intros Hslugs Hurls slug url.
  rewrite startup_Some, storage_foldl_readLine, storageReverse_foldl_readLine.
  cbn [storage storageReverse init].
  rewrite foldl_insert_list_to_map, foldl_insert_swap_list_to_map by assumption.
  rewrite <- !elem_of_list_to_map.
  - rewrite list_elem_of_fmap. split.
    + intros H. now exists (slug, url).
    + intros ([s u] & [= -> ->] & H). exact H.
  - rewrite <- list_fmap_compose.
    erewrite list_fmap_ext; [exact Hurls | now intros i [??]].
  - exact Hslugs.
Qed.

(** * The claims of the specification *)

(** C1.  The claim: a URL submitted twice with the correct secret gets the
    same slug the second time, and no new entry is made.  The handler looks
    the URL up in [storageReverse] (line 146) but writes a new entry to
    [storage] only (line 154); [readStorage] writes both maps (lines 56 and
    57).  So on a server started without a storage file, with the default
    flags, the second submission of [http://example.com] misses the reverse
    lookup, draws the new slug [JQX4b] where the first got [ahovC], and
    leaves two forward entries for the one URL. *)
Theorem resubmission_gets_new_slug :
  serve default_flags plain_host
    [submit "changeme" "http://example.com" "";
     submit "changeme" "http://example.com" ""] (startup None sevens) =
  Returned ([Write "http://localhost/ahovC"; Write "http://localhost/JQX4b"],
            twice) ∧
  storage twice !! "ahovC" = Some "http://example.com" ∧
  storage twice !! "JQX4b" = Some "http://example.com" ∧
  size (storage twice) = 2%nat.
Proof.
  repeat split; vm_compute; reflexivity.
Qed.

(** C2.  The claim: in every state reached by loading and submissions, the
    forward and the reverse map hold the same pairs, so that no URL has two
    slugs.  The state after [init] is consistent; after one submission the
    forward map holds [(ahovC, http://example.com)] and the reverse map is
    still empty; after the second submission the URL has two slugs.  Same
    defect as C1: line 154 has no counterpart for [storageReverse]. *)
Theorem submission_breaks_consistency :
  consistent (startup None sevens) ∧
  handler default_flags plain_host (submit "changeme" "http://example.com" "")
    (startup None sevens) = Returned (Write "http://localhost/ahovC", once) ∧
  storage once !! "ahovC" = Some "http://example.com" ∧
  storageReverse once !! "http://example.com" = None ∧
  ¬ consistent once ∧
  handler default_flags plain_host (submit "changeme" "http://example.com" "")
    once = Returned (Write "http://localhost/JQX4b", twice) ∧
  storage twice !! "ahovC" = Some "http://example.com" ∧
  storage twice !! "JQX4b" = Some "http://example.com".
Proof.
  assert (storage once !! "ahovC" = Some "http://example.com") as Hf
    by (vm_compute; reflexivity).
  assert (storageReverse once !! "http://example.com" = None) as Hr
    by (vm_compute; reflexivity).
  split; [| split; [| split; [| split; [| split]]]]; try assumption.
  - intros slug url. unfold startup, readStorage, init. cbn.
    now rewrite !lookup_empty.
  - vm_compute; reflexivity.
  - intros H. apply H in Hf. congruence.
  - repeat split; vm_compute; reflexivity.
Qed.

(** C3.  A submission with the correct secret and a non-empty URL that the
    reverse lookup does not find is answered with
    [<server-name>/<slug>] for some slug, and afterwards a GET or HEAD of
    [/<slug>] is answered with a redirect, status 301, to the submitted URL.
    The handler answers whenever [genUniqueSlug] returns or is not needed; it
    panics only when the caller's slug is not taken as it is and
    [genUniqueSlug] panics (C7). *)
Theorem fresh_submission_resolves cfg h r w :
  Method r = "POST" → Path r = "/submit" →
  PostFormValue r "secret" = SecretConfig cfg →
  PostFormValue r "url" ≠ "" →
  storageReverse w !! PostFormValue r "url" = None →
  match handler cfg h r w with
  | Returned (resp, w') =>
    ∃ slug,
      resp = Write (ServerNameConfig cfg ++ "/" ++ slug) ∧
      storage w' !! slug = Some (PostFormValue r "url") ∧
      ∀ r', Method r' = "GET" ∨ Method r' = "HEAD" →
            Path r' = "/" ++ slug →
            handler cfg h r' w' =
            Returned (Redirect (PostFormValue r "url") 301, w')
  | Panicked msg =>
    ¬ acceptable w (PostFormValue r "slug") ∧ genUniqueSlug cfg w = Panicked msg
  end.
Proof.
  intros HM HP Hsecret Hurl Hfresh.
  rewrite (handler_submit cfg h r w HM HP), Hsecret, String.eqb_refl, Hfresh.
  apply String.eqb_neq in Hurl. rewrite Hurl. cbn [negb andb].
  destruct (acceptable_or_not w (PostFormValue r "slug")) as [Hacc | Hacc].
  - rewrite (pick_acceptable cfg w _ Hacc). eexists. split; [reflexivity |].
    rewrite storage_added, lookup_insert_eq. split; [reflexivity |].
    intros r' HM' HP'. rewrite (handler_resolve cfg h r' _ HM'), HP'.
    change (TrimPrefix_slash ("/" ++ ?s)) with s.
    now rewrite storage_added, lookup_insert_eq.
  - rewrite (pick_unacceptable cfg w _ Hacc).
    destruct (genUniqueSlug cfg w) as [[s w1] | msg]; [| now split].
    eexists. split; [reflexivity |].
    rewrite storage_added, lookup_insert_eq. split; [reflexivity |].
    intros r' HM' HP'. rewrite (handler_resolve cfg h r' _ HM'), HP'.
    change (TrimPrefix_slash ("/" ++ ?s)) with s.
    now rewrite storage_added, lookup_insert_eq.
Qed.

Lemma fresh_submission_resolves_witness :
  match handler default_flags plain_host
          (submit "changeme" "http://example.com" "") (startup None sevens) with
  | Returned (resp, w') =>
    ∃ slug,
      resp = Write ("http://localhost" ++ "/" ++ slug) ∧
      storage w' !! slug = Some "http://example.com" ∧
      ∀ r', Method r' = "GET" ∨ Method r' = "HEAD" →
            Path r' = "/" ++ slug →
            handler default_flags plain_host r' w' =
            Returned (Redirect "http://example.com" 301, w')
  | Panicked msg =>
    ¬ acceptable (startup None sevens) "" ∧
    genUniqueSlug default_flags (startup None sevens) = Panicked msg
  end.
Proof.
  apply (fresh_submission_resolves default_flags plain_host
           (submit "changeme" "http://example.com" "") (startup None sevens));
    [reflexivity | reflexivity | reflexivity | discriminate | reflexivity].
Defined.

(** C4.  A POST to [/submit] whose secret differs from the configured one, or
    whose URL is empty, is answered with [http.Error(w, "Not authorized",
    401)] and leaves the whole state, both maps included, as it was.  Nothing
    else about the URL is checked: with the right secret and any non-empty
    URL the answer is never an error. *)
Theorem unauthorized_submission cfg h r w :
  Method r = "POST" → Path r = "/submit" →
  (PostFormValue r "secret" ≠ SecretConfig cfg ∨ PostFormValue r "url" = "" →
   handler cfg h r w = Returned (Error "Not authorized" 401, w)) ∧
  (PostFormValue r "secret" = SecretConfig cfg → PostFormValue r "url" ≠ "" →
   ∀ msg code w', handler cfg h r w ≠ Returned (Error msg code, w')).
Proof.
  intros HM HP. rewrite (handler_submit cfg h r w HM HP). split.
  - intros [H | H].
    + apply String.eqb_neq in H. now rewrite H.
    + rewrite H. cbn [String.eqb negb]. now rewrite andb_false_r.
  - intros Hs Hu msg code w'.
    apply String.eqb_eq in Hs. apply String.eqb_neq in Hu. rewrite Hs, Hu.
    cbn [negb andb].
    destruct (storageReverse w !! _); [discriminate |].
    now destruct (pick cfg w _) as [[s w1] | m].
Qed.

Lemma unauthorized_submission_witness :
  handler default_flags plain_host (submit "guess" "http://example.com" "ab")
    (startup None sevens) =
  Returned (Error "Not authorized" 401, startup None sevens) ∧
  handler default_flags plain_host (submit "changeme" "" "ab")
    (startup None sevens) =
  Returned (Error "Not authorized" 401, startup None sevens) ∧
  handler default_flags plain_host (submit "changeme" "not a url" "ab")
    (startup None sevens) ≠
  Returned (Error "Not authorized" 401, startup None sevens).
Proof.
  split; [| split].
  - apply (unauthorized_submission default_flags plain_host
             (submit "guess" "http://example.com" "ab") (startup None sevens));
      [reflexivity | reflexivity | left; discriminate].
  - apply (unauthorized_submission default_flags plain_host
             (submit "changeme" "" "ab") (startup None sevens));
      [reflexivity | reflexivity | right; reflexivity].
  - apply (unauthorized_submission default_flags plain_host
             (submit "changeme" "not a url" "ab") (startup None sevens));
      [reflexivity | reflexivity | reflexivity | discriminate].
Defined.

(** C5.  For an authorized submission of a URL that the reverse lookup does
    not find: when the caller's slug is non-empty, consists of characters of
    the alphabet only and is absent from the forward map, the entry is stored
    under that very slug; in every other case the slug is whatever
    [genUniqueSlug] returns, the answer is the ordinary one with that slug
    (no error is reported), and a slug that the caller did supply is not the
    one used.  When [genUniqueSlug] panics (C7), so does the handler. *)
Theorem explicit_slug_rule cfg h r w :
  Method r = "POST" → Path r = "/submit" →
  PostFormValue r "secret" = SecretConfig cfg →
  PostFormValue r "url" ≠ "" →
  storageReverse w !! PostFormValue r "url" = None →
  (PostFormValue r "slug" ≠ "" ∧ alphabetic (PostFormValue r "slug") ∧
   storage w !! PostFormValue r "slug" = None →
   handler cfg h r w =
   Returned (Write (ServerNameConfig cfg ++ "/" ++ PostFormValue r "slug"),
             added h (PostFormValue r "slug") (PostFormValue r "url") w)) ∧
  (¬ (PostFormValue r "slug" ≠ "" ∧ alphabetic (PostFormValue r "slug") ∧
      storage w !! PostFormValue r "slug" = None) →
   match genUniqueSlug cfg w with
   | Returned (s, w1) =>
     handler cfg h r w =
     Returned (Write (ServerNameConfig cfg ++ "/" ++ s),
               added h s (PostFormValue r "url") w1) ∧
     (PostFormValue r "slug" ≠ "" → s ≠ PostFormValue r "slug")
   | Panicked msg => handler cfg h r w = Panicked msg
   end).
Proof.
  intros HM HP Hsecret Hurl Hfresh.
  rewrite (handler_submit cfg h r w HM HP), Hsecret, String.eqb_refl, Hfresh.
  apply String.eqb_neq in Hurl. rewrite Hurl. cbn [negb andb].
  fold (acceptable w (PostFormValue r "slug")). split; intros Hacc.
  - now rewrite (pick_acceptable cfg w _ Hacc).
  - rewrite (pick_unacceptable cfg w _ Hacc).
    destruct (genUniqueSlug cfg w) as [[s w1] | msg] eqn:E; [| reflexivity].
    split; [reflexivity |].
    intros Hne ->. apply Hacc.
    apply genUniqueSlug_returned in E as (? & _ & ? & _). now repeat split.
Qed.

Lemma explicit_slug_rule_witness :
  handler default_flags plain_host (submit "changeme" "http://example.com" "ab")
    (startup None sevens) =
  Returned (Write ("http://localhost" ++ "/" ++ "ab"),
            added plain_host "ab" "http://example.com" (startup None sevens)).
Proof.
  refine (proj1 (explicit_slug_rule default_flags plain_host
                   (submit "changeme" "http://example.com" "ab")
                   (startup None sevens) eq_refl eq_refl eq_refl _ eq_refl) _).
  - discriminate.
  - split; [discriminate |]. split; [| reflexivity].
    apply invalidSlug_alphabetic. reflexivity.
Defined.

(** C6.  The alphabet has 62 characters.  Every slug returned by [genSlug],
    and so every slug returned by [genUniqueSlug], consists of characters of
    the alphabet only and is exactly [SpaceConfig] bytes long; and [genSlug]
    does return a slug whenever [SpaceConfig] is not negative. *)
Theorem generated_slug_shape cfg w :
  len allSlugPossibilities = 62%Z ∧ NoDup (bytes allSlugPossibilities) ∧
  (∀ s w', genSlug cfg w = Returned (s, w') →
           alphabetic s ∧ len s = SpaceConfig cfg) ∧
  (∀ s w', genUniqueSlug cfg w = Returned (s, w') →
           alphabetic s ∧ len s = SpaceConfig cfg) ∧
  ((0 ≤ SpaceConfig cfg)%Z → ∃ s w', genSlug cfg w = Returned (s, w')).
Proof.
  split; [reflexivity |].
  split; [apply (bool_decide_unpack _); vm_compute; reflexivity |].
  split; [| split].
  - intros s w' E. apply genSlug_returned in E. tauto.
  - intros s w' E. apply genUniqueSlug_returned in E. tauto.
  - intros H. destruct (genSlug_spec cfg w H) as (s & _ & _ & E). eauto.
Qed.

Lemma generated_slug_shape_witness :
  alphabetic "ahovC" ∧ len "ahovC" = 5%Z.
Proof.
  apply (proj1 (proj2 (proj2 (generated_slug_shape default_flags (startup None sevens))))
           "ahovC" (set_rand_used 5 (startup None sevens))).
  reflexivity.
Defined.



(** C8, as stated, fails: [bufio.ScanLines] drops a carriage return at the
    end of a line.  The URL [x<CR>] submitted with the slug [ab] is written
    as the line [ab x<CR>] and read back as [x]. *)
Lemma carriage_return_not_restored :
  handler default_flags plain_host (submit "changeme" cr_url "ab")
    (startup None sevens) = Returned (Write "http://localhost/ab", cr_world) ∧
  tempFileOk plain_host = true ∧
  rangeOrder plain_host (storage cr_world) ≡ₚ map_to_list (storage cr_world) ∧
  (Replace_newlines <$> storage cr_world) !! "ab" = Some cr_url ∧
  persist_then_load plain_host cr_world !! "ab" = Some "x" ∧
  persist_then_load plain_host cr_world ≠ Replace_newlines <$> storage cr_world.
Proof.
  assert ((Replace_newlines <$> storage cr_world) !! "ab" = Some cr_url) as H1
    by (vm_compute; reflexivity).
  assert (persist_then_load plain_host cr_world !! "ab" = Some "x") as H2
    by (vm_compute; reflexivity).
  split; [vm_compute; reflexivity |].
  split; [reflexivity |]. split; [reflexivity |].
  split; [exact H1 |]. split; [exact H2 |].
  intros E. rewrite E, H1 in H2. discriminate.
Qed.

(** C8, amended.  Take a store in which no slug contains a space or a
    newline (true of every reachable state, see [serve_clean]) and in which
    every URL, once its newlines are removed, does not end with a carriage
    return and makes, with its slug and the space between them, a line
    shorter than 65536 bytes.  If [writeStorage] can create its temporary file
    and [range] visits each entry of the map once, then a fresh process
    started on the file it leaves has as forward map the old one with the
    newlines removed from the URLs. *)
Theorem persist_load_roundtrip h w :
  tempFileOk h = true →
  rangeOrder h (storage w) ≡ₚ map_to_list (storage w) →
  (∀ slug url, storage w !! slug = Some url → storable (slug, url)) →
  persist_then_load h w = Replace_newlines <$> storage w.
Proof.
  intros Htmp Hperm Hok.
  unfold persist_then_load, writeStorage. rewrite Htmp.
  set (l := rangeOrder h (storage w)) in *.
  assert (Forall storable l) as Hl.
  { apply Forall_forall. intros [slug url] Hin. apply Hok.
    apply elem_of_map_to_list. now rewrite <- Hperm. }
  unfold startup, readStorage. cbn [file init set_file].
  rewrite Scanner_storage_text by exact Hl. cbn [fst].
  change (mkWorld ∅ ∅ ?f ?s 0) with (init f s).
  rewrite storage_foldl_readLine. cbn [storage init].
  rewrite omap_cut_written by exact Hl.
  assert (NoDup l.*1) as Hnd.
  { rewrite Hperm. apply NoDup_fst_map_to_list. }
  rewrite foldl_insert_list_to_map.
  - rewrite list_to_map_fmap. f_equal. symmetry. now apply list_to_map_flip.
  - rewrite <- list_fmap_compose.
    erewrite list_fmap_ext; [exact Hnd | now intros i [??]].
Qed.

Lemma persist_load_roundtrip_witness :
  persist_then_load plain_host once = Replace_newlines <$> storage once.
Proof.
  apply (persist_load_roundtrip plain_host once); [reflexivity | reflexivity |].
  intros slug url H.
  unfold once in H. rewrite storage_added in H.
  apply lookup_insert_Some in H as [[<- <-] | [_ H]]; [| discriminate].
  split; [| split; [| split]].
  - apply free_of_check. reflexivity.
  - apply free_of_check. reflexivity.
  - apply dropCR_fixed. reflexivity.
  - reflexivity.
Defined.

(** C9, as stated, fails: the scanner gives up at a line of 65536 bytes or
    more ([bufio.ErrTooLong], reported by line 61), and the lines after it
    are not read.  In [long_file] the line [b c] follows such a line and
    contributes nothing. *)
Lemma long_line_stops_loading :
  newline_fields long_file = [replicate_byte MaxScanTokenSize "a"; "b c"; ""] ∧
  storage (startup (Some long_file) sevens) !! "b" = None ∧
  storage (startup (Some long_file) sevens) = ∅.
Proof.
  assert (Scanner long_file = ([], true)) as Hscan.
  { unfold Scanner, long_file.
    rewrite raw_lines_line by (apply replicate_byte_free; discriminate).
    cbn [scan_tokens]. rewrite length_replicate_byte, Nat.leb_refl. reflexivity. }
  split; [| split].
  - unfold long_file.
    rewrite newline_fields_line by (apply replicate_byte_free; discriminate).
    reflexivity.
  - rewrite startup_Some, Hscan. reflexivity.
  - rewrite startup_Some, Hscan. reflexivity.
Qed.

(** C9, amended.  Without a file the store stays empty.  With a file, the
    lines read are the newline-delimited lines, each without one trailing
    carriage return, that precede the first line of 65536 bytes or more (all
    of them when there is none).  They are processed in order: a line without
    a space changes nothing; a line [slug ++ " " ++ url], where [slug] has no
    space, puts [(slug, url)] into the forward and [(url, slug)] into the
    reverse map.  Hence the forward map sends a slug to the URL of the last
    line that starts with that slug and a space, and the reverse map sends a
    URL to the slug of the last line that has that URL after its first
    space. *)
Theorem load_spec :
  (∀ src, storage (startup None src) = ∅ ∧ storageReverse (startup None src) = ∅) ∧
  (∀ content src,
     ∃ n,
       let raw := raw_lines (newline_fields content) in
       let lines := dropCR <$> take n raw in
       Forall short (take n raw) ∧
       (n = length raw ∨ ∃ l, raw !! n = Some l ∧ ¬ short l) ∧
       startup (Some content) src = foldl readLine (init (Some content) src) lines ∧
       (∀ slug url,
          storage (startup (Some content) src) !! slug = Some url ↔
          ∃ before after,
            lines = (before ++ (slug ++ " " ++ url)%string :: after)%list ∧
            free_of space slug ∧ ∀ u, slug ++ " " ++ u ∉ after) ∧
       (∀ slug url,
          storageReverse (startup (Some content) src) !! url = Some slug ↔
          ∃ before after,
            lines = (before ++ (slug ++ " " ++ url)%string :: after)%list ∧
            free_of space slug ∧ ∀ s, free_of space s → s ++ " " ++ url ∉ after)) ∧
  (∀ w line, free_of space line → readLine w line = w) ∧
  (∀ w slug url,
     free_of space slug →
     readLine w (slug ++ " " ++ url) =
     set_maps (<[slug := url]> (storage w)) (<[url := slug]> (storageReverse w)) w).
Proof.
  split; [intros src; split; reflexivity |].
  split; [| split; [exact readLine_skip | exact readLine_entry]].
  intros content src.
  destruct (scan_tokens_spec (raw_lines (newline_fields content)))
    as (n & Htok & Hshort & Hend).
  exists n. cbv zeta. rewrite startup_Some.
  unfold Scanner. rewrite Htok.
  split; [exact Hshort |]. split.
  { destruct Hend as [[-> _] | (l & Hl & Hlong & _)]; [now left | right; eauto]. }
  split; [reflexivity |]. split.
  - intros slug url. apply storage_loaded.
  - intros slug url. apply storageReverse_loaded.
Qed.

Lemma load_spec_witness :
  readLine (init None sevens) ("ab" ++ " " ++ "http://example.com") =
  set_maps (<["ab" := "http://example.com"]> ∅) (<["http://example.com" := "ab"]> ∅)
    (init None sevens).
Proof.
  apply (proj2 (proj2 (proj2 load_spec)) (init None sevens) "ab" "http://example.com").
  apply free_of_check. reflexivity.
Defined.

(** C10, as stated, fails for the same reason as C9: a line that begins with
    a space but is 65536 bytes long or longer loads no entry, and GET [/] is
    answered with not-found. *)
Lemma long_spaced_line_not_loaded :
  newline_fields long_spaced_file = [long_spaced_line; ""] ∧
  cut space long_spaced_line = Some ("", replicate_byte MaxScanTokenSize "a") ∧
  storage (startup (Some long_spaced_file) sevens) !! "" = None ∧
  handler default_flags plain_host (GET "/") (startup (Some long_spaced_file) sevens) =
  Returned (NotFound, startup (Some long_spaced_file) sevens).
Proof.
  assert (free_of newline long_spaced_line) as Hfree.
  { apply free_of_cons. split; [discriminate |].
    apply replicate_byte_free. discriminate. }
  assert (Scanner long_spaced_file = ([], true)) as Hscan.
  { unfold Scanner, long_spaced_file. rewrite raw_lines_line by exact Hfree.
    cbn [scan_tokens]. unfold long_spaced_line. cbn [String.length].
    rewrite length_replicate_byte.
    destruct (Nat.leb_spec MaxScanTokenSize (S MaxScanTokenSize)); [reflexivity | lia]. }
  assert (storage (startup (Some long_spaced_file) sevens) !! "" = None) as Hnone
    by (rewrite startup_Some, Hscan; reflexivity).
  split; [| split; [| split]].
  - unfold long_spaced_file. now rewrite newline_fields_line by exact Hfree.
  - reflexivity.
  - exact Hnone.
  - rewrite handler_resolve by (now left).
    change (TrimPrefix_slash (Path (GET "/"))) with "". now rewrite Hnone.
Qed.

(** C10, amended.  For every line that the scanner delivers and that
    contains a space, the text before the first space becomes a slug of the
    forward map whatever its characters are, the empty text of a line that
    begins with a space included; GET and HEAD of [/<slug>] are then answered
    with a redirect, status 301, to the URL that the map holds for the slug,
    which is the line's own URL unless a later line starts with the same
    slug. *)
Theorem load_accepts_any_slug content src slug url before after :
  (Scanner content).1 = (before ++ (slug ++ " " ++ url)%string :: after)%list →
  free_of space slug →
  ∃ u, storage (startup (Some content) src) !! slug = Some u ∧
       ((∀ u', slug ++ " " ++ u' ∉ after) → u = url) ∧
       ∀ cfg h r, Method r = "GET" ∨ Method r = "HEAD" →
                  Path r = "/" ++ slug →
                  handler cfg h r (startup (Some content) src) =
                  Returned (Redirect u 301, startup (Some content) src).
Proof.
  intros Hlines Hfree.
  assert (is_Some (storage (startup (Some content) src) !! slug)) as [u Hu].
  { rewrite startup_Some, storage_foldl_readLine, Hlines.
    apply (foldl_insert_is_Some fst snd _ _ (slug, url)).
    apply list_elem_of_omap. exists (slug ++ " " ++ url). split.
    - apply elem_of_app. right. apply list_elem_of_here.
    - now apply cut_app. }
  exists u. split; [exact Hu |]. split.
  - intros Hlast.
    assert (storage (startup (Some content) src) !! slug = Some url) as Hurl.
    { rewrite startup_Some. apply storage_loaded. exists before, after. auto. }
    congruence.
  - intros cfg h r HM HP. rewrite (handler_resolve cfg h r _ HM), HP.
    change (TrimPrefix_slash ("/" ++ slug)) with slug. now rewrite Hu.
Qed.

Lemma load_accepts_any_slug_witness :
  ∃ u, storage (startup (Some odd_file) sevens) !! "" = Some u ∧
       ((∀ u', "" ++ " " ++ u' ∉ ["a-b http://example.org"]) →
        u = "http://example.com") ∧
       ∀ cfg h r, Method r = "GET" ∨ Method r = "HEAD" →
                  Path r = "/" ++ "" →
                  handler cfg h r (startup (Some odd_file) sevens) =
                  Returned (Redirect u 301, startup (Some odd_file) sevens).
Proof.
  apply (load_accepts_any_slug odd_file sevens "" "http://example.com" []
           ["a-b http://example.org"]).
  - reflexivity.
  - apply free_of_check. reflexivity.
Defined.

(** * Further properties of the code *)

(** *** What one request does to the state *)

Section Effect.
Variables (cfg : Flags) (h : Host).

Lemma handler_effect r w resp w' :
  handler cfg h r w = Returned (resp, w') →
  w' = w ∨
  (creating cfg r w ∧
   ∃ slug w1, pick cfg w (PostFormValue r "slug") = Returned (slug, w1) ∧
              resp = Write (ServerNameConfig cfg ++ "/" ++ slug) ∧
              w' = added h slug (PostFormValue r "url") w1).
Proof.
  destruct (String.eqb (Method r) "POST" && String.eqb (Path r) "/submit") eqn:E.
  - apply andb_true_iff in E as [HM%String.eqb_eq HP%String.eqb_eq].
    rewrite (handler_submit cfg h r w HM HP).
    destruct (String.eqb_spec (PostFormValue r "secret") (SecretConfig cfg)) as [Hs | Hs];
      [| intros [= _ <-]; now left].
    destruct (String.eqb_spec (PostFormValue r "url") "") as [Hu | Hu];
      [intros [= _ <-]; now left |].
    cbn [negb andb].
    destruct (storageReverse w !! _) eqn:Hrev; [intros [= _ <-]; now left |].
    destruct (pick cfg w _) as [[s w1] | msg] eqn:Ep; [| discriminate].
    intros [= <- <-]. right. split; [now repeat split |].
    exists s, w1. auto.
  - unfold handler. rewrite E.
    destruct (_ || _); unfold_M.
    + destruct (storage w !! _); intros [= _ <-]; now left.
    + intros [= _ <-]. now left.
Qed.

Lemma handler_storage r w resp w' :
  handler cfg h r w = Returned (resp, w') →
  storage w' = storage w ∨
  ∃ slug, storage w !! slug = None ∧ alphabetic slug ∧
          PostFormValue r "url" ≠ "" ∧
          storage w' = <[slug := PostFormValue r "url"]> (storage w).
Proof.
  intros E. apply handler_effect in E as [-> | [Hc (slug & w1 & Ep & _ & ->)]];
    [now left |].
  right. exists slug. rewrite storage_added.
  pose proof (pick_returned cfg w _ _ _ Ep) as (Hnone & Hst & _).
  destruct Hc as (_ & _ & _ & Hu & _).
  split; [exact Hnone |]. split; [| split; [exact Hu | now rewrite Hst]].
  unfold pick in Ep. destruct (_ || _) eqn:G.
  - apply genUniqueSlug_returned in Ep. tauto.
  - injection Ep as <- _. now apply guard_acceptable in G as (_ & ? & _).
Qed.

Lemma handler_keeps_entries r w resp w' slug url :
  handler cfg h r w = Returned (resp, w') →
  storage w !! slug = Some url → storage w' !! slug = Some url.
Proof.
  intros E Hs. apply handler_storage in E as [-> | (s & Hnone & _ & _ & ->)];
    [exact Hs |].
  rewrite lookup_insert_ne; [exact Hs | congruence].
Qed.

Lemma serve_cons r rs w :
  serve cfg h (r :: rs) w =
  match handler cfg h r w with
  | Returned (resp, w1) =>
    match serve cfg h rs w1 with
    | Returned (resps, w2) => Returned (resp :: resps, w2)
    | Panicked msg => Panicked msg
    end
  | Panicked msg => Panicked msg
  end.
Proof.
  cbn [serve]. unfold_M.
  destruct (handler cfg h r w) as [[resp w1] | msg]; [| reflexivity].
  now destruct (serve cfg h rs w1) as [[resps w2] | msg].
Qed.

(** An invariant of single requests is an invariant of runs. *)
Lemma serve_invariant (P : World → World → Prop) :
  (∀ w, P w w) →
  (∀ r w resp w1 w2, handler cfg h r w = Returned (resp, w1) → P w1 w2 → P w w2) →
  ∀ rs w resps w', serve cfg h rs w = Returned (resps, w') → P w w'.
Proof.
  intros Hrefl Hstep. induction rs as [| r rs IH]; intros w resps w'.
  - intros [= _ <-]. apply Hrefl.
  - rewrite serve_cons.
    destruct (handler cfg h r w) as [[resp w1] | msg] eqn:E1; [| discriminate].
    destruct (serve cfg h rs w1) as [[resps' w2] | msg] eqn:E2; [| discriminate].
    intros [= _ <-]. eapply Hstep; [exact E1 |]. eapply IH. exact E2.
Qed.
End Effect.

(** X1.  A request changes the state only when it is an authorized submission
    of a non-empty URL that the reverse lookup does not find: then exactly
    one entry, under a slug that was absent, is added to the forward map.
    Every other request that is answered leaves the whole state (both maps,
    the file, the random source) as it was. *)
Theorem only_new_entries_change_state cfg h r w resp w' :
  handler cfg h r w = Returned (resp, w') →
  w' = w ∨
  (Method r = "POST" ∧ Path r = "/submit" ∧
   PostFormValue r "secret" = SecretConfig cfg ∧ PostFormValue r "url" ≠ "" ∧
   storageReverse w !! PostFormValue r "url" = None ∧
   ∃ slug, resp = Write (ServerNameConfig cfg ++ "/" ++ slug) ∧
           storage w !! slug = None ∧
           storage w' = <[slug := PostFormValue r "url"]> (storage w) ∧
           size (storage w') = S (size (storage w))).
Proof.
  intros E. destruct (handler_effect cfg h r w resp w' E)
    as [-> | [(HM & HP & Hs & Hu & Hrev) (slug & w1 & Ep & -> & ->)]]; [now left |].
  right. repeat (split; [assumption |]).
  exists slug. split; [reflexivity |].
  pose proof (pick_returned cfg w _ _ _ Ep) as (Hnone & Hst & _).
  rewrite storage_added, Hst. split; [exact Hnone |]. split; [reflexivity |].
  now apply map_size_insert_None.
Qed.

Lemma only_new_entries_change_state_witness :
  once = startup None sevens ∨
  (Method (submit "changeme" "http://example.com" "") = "POST" ∧
   Path (submit "changeme" "http://example.com" "") = "/submit" ∧
   PostFormValue (submit "changeme" "http://example.com" "") "secret" =
   SecretConfig default_flags ∧
   PostFormValue (submit "changeme" "http://example.com" "") "url" ≠ "" ∧
   storageReverse (startup None sevens)
     !! PostFormValue (submit "changeme" "http://example.com" "") "url" = None ∧
   ∃ slug, Write "http://localhost/ahovC" =
           Write (ServerNameConfig default_flags ++ "/" ++ slug) ∧
           storage (startup None sevens) !! slug = None ∧
           storage once =
           <[slug := PostFormValue (submit "changeme" "http://example.com" "") "url"]>
             (storage (startup None sevens)) ∧
           size (storage once) = S (size (storage (startup None sevens)))).
Proof.
  apply (only_new_entries_change_state default_flags plain_host
           (submit "changeme" "http://example.com" "") (startup None sevens)
           (Write "http://localhost/ahovC") once).
  vm_compute. reflexivity.
Defined.

Lemma entries_kept_step cfg h rs w resps w' slug url :
  serve cfg h rs w = Returned (resps, w') →
  storage w !! slug = Some url → storage w' !! slug = Some url.
Proof.
  intros E. revert E.
  apply (serve_invariant cfg h
           (λ w w', storage w !! slug = Some url → storage w' !! slug = Some url)).
  - auto.
  - intros r w0 resp w1 w2 E H Hs. apply H.
    now apply (handler_keeps_entries cfg h r w0 resp w1).
Qed.

(** X2.  A request that is not a POST to [/submit] is answered with not-found
    and an unchanged state when its method is neither GET nor HEAD, and also
    when it is a GET or HEAD whose path, without one leading slash, is not a
    slug of the forward map. *)
Theorem not_found_cases cfg h r w :
  ¬ (Method r = "POST" ∧ Path r = "/submit") →
  (Method r ≠ "GET" → Method r ≠ "HEAD" →
   handler cfg h r w = Returned (NotFound, w)) ∧
  (Method r = "GET" ∨ Method r = "HEAD" →
   storage w !! TrimPrefix_slash (Path r) = None →
   handler cfg h r w = Returned (NotFound, w)).
Proof.
  intros Hpost. split.
  - intros HG HH. unfold handler.
    destruct (String.eqb (Method r) "POST" && String.eqb (Path r) "/submit") eqn:E.
    { apply andb_true_iff in E as [HM%String.eqb_eq HP%String.eqb_eq]. tauto. }
    apply String.eqb_neq in HG, HH. now rewrite HG, HH.
  - intros HM Hnone. now rewrite (handler_resolve cfg h r w HM), Hnone.
Qed.

Lemma not_found_cases_witness :
  handler default_flags plain_host
    {| Method := "POST"; Path := "/other"; PostFormValue := form [] |} once =
  Returned (NotFound, once) ∧
  handler default_flags plain_host
    {| Method := "DELETE"; Path := "/ahovC"; PostFormValue := form [] |} once =
  Returned (NotFound, once) ∧
  handler default_flags plain_host (GET "/nothing") once = Returned (NotFound, once).
Proof.
  split; [| split].
  - refine (proj1 (not_found_cases default_flags plain_host
                     {| Method := "POST"; Path := "/other"; PostFormValue := form [] |}
                     once _) _ _); [intros [_ H] | |]; discriminate.
  - refine (proj1 (not_found_cases default_flags plain_host
                     {| Method := "DELETE"; Path := "/ahovC"; PostFormValue := form [] |}
                     once _) _ _); [intros [H _] | |]; discriminate.
  - refine (proj2 (not_found_cases default_flags plain_host (GET "/nothing") once _)
              _ _); [intros [H _]; discriminate | now left | vm_compute; reflexivity].
Defined.

(** X3.  [invalidSlug], which walks the runes of the slug, decides a property
    of its bytes: it returns false exactly when every byte is a character of
    the alphabet, and true exactly when some byte is not; in particular every
    slug with a byte of value 128 or more is invalid, whether or not the
    bytes are well-formed UTF-8. *)
Theorem invalidSlug_bytes slug :
  (invalidSlug slug = false ↔ alphabetic slug) ∧
  (invalidSlug slug = true ↔ ∃ c, In c (bytes slug) ∧ ¬ in_alphabet c) ∧
  (∀ c, In c (bytes slug) → (128 ≤ byteZ c)%Z → invalidSlug slug = true).
Proof.
  assert (invalidSlug slug = true ↔ ∃ c, In c (bytes slug) ∧ ¬ in_alphabet c) as Htrue.
  { rewrite <- not_false_iff_true, invalidSlug_alphabetic. unfold alphabetic.
    split.
    - intros H. apply not_Forall_Exists in H.
      + apply Exists_exists in H as (c & Hc & Hn). exists c.
        split; [now apply list_elem_of_In | exact Hn].
      + intros c. unfold in_alphabet.
        destruct (In_dec ascii_dec c (bytes allSlugPossibilities)); [left | right]; assumption.
    - intros (c & Hc & Hn) H. rewrite Forall_forall in H.
      apply Hn, H. now apply list_elem_of_In. }
  split; [apply invalidSlug_alphabetic |]. split; [exact Htrue |].
  intros c Hc Hbig. apply Htrue. exists c. split; [exact Hc |].
  intros H. apply alphabet_is_ascii in H. lia.
Qed.

(** X4.  No request writes the reverse map: after any run of requests it is
    still the map that [readStorage] built at start-up. *)
Theorem requests_never_write_reverse cfg h rs w resps w' :
  serve cfg h rs w = Returned (resps, w') →
  storageReverse w' = storageReverse w.
Proof.
  apply (serve_invariant cfg h (λ w w', storageReverse w' = storageReverse w)).
  - reflexivity.
  - intros r w0 resp w1 w2 E H. rewrite H.
    now apply (handler_storageReverse cfg h r w0 resp w1).
Qed.

Lemma requests_never_write_reverse_witness :
  storageReverse twice = storageReverse (startup None sevens).
Proof.
  apply (requests_never_write_reverse default_flags plain_host
           [submit "changeme" "http://example.com" "";
            submit "changeme" "http://example.com" ""]
           (startup None sevens)
           [Write "http://localhost/ahovC"; Write "http://localhost/JQX4b"] twice).
  vm_compute. reflexivity.
Defined.

(** X5.  Entries are permanent: a slug of the forward map keeps its URL
    through any run of requests, and GET and HEAD of [/<slug>] are answered
    with the redirect to that URL afterwards. *)
Theorem entries_are_permanent cfg h rs w resps w' slug url :
  serve cfg h rs w = Returned (resps, w') →
  storage w !! slug = Some url →
  storage w' !! slug = Some url ∧
  ∀ r, Method r = "GET" ∨ Method r = "HEAD" → Path r = "/" ++ slug →
       handler cfg h r w' = Returned (Redirect url 301, w').
Proof.
  intros E Hs.
  assert (storage w' !! slug = Some url) as Hs'.
  { revert Hs. revert E.
    apply (serve_invariant cfg h
             (λ w w', storage w !! slug = Some url → storage w' !! slug = Some url)).
    - auto.
    - intros r w0 resp w1 w2 E H Hs. apply H.
      now apply (handler_keeps_entries cfg h r w0 resp w1). }
  split; [exact Hs' |].
  intros r HM HP. rewrite (handler_resolve cfg h r w' HM), HP.
  change (TrimPrefix_slash ("/" ++ slug)) with slug. now rewrite Hs'.
Qed.

Lemma entries_are_permanent_witness :
  storage twice !! "ahovC" = Some "http://example.com" ∧
  ∀ r, Method r = "GET" ∨ Method r = "HEAD" → Path r = "/" ++ "ahovC" →
       handler default_flags plain_host r twice =
       Returned (Redirect "http://example.com" 301, twice).
Proof.
  apply (entries_are_permanent default_flags plain_host
           [submit "changeme" "http://example.com" ""] once
           [Write "http://localhost/JQX4b"] twice).
  - vm_compute. reflexivity.
  - vm_compute. reflexivity.
Defined.

(** X6.  Every entry that a run of requests adds to the forward map has a
    slug made of characters of the alphabet only and a non-empty URL, the one
    posted by an authorized submission of the run. *)
Theorem new_entries_shape cfg h rs w resps w' slug url :
  serve cfg h rs w = Returned (resps, w') →
  storage w !! slug = None → storage w' !! slug = Some url →
  alphabetic slug ∧ url ≠ "" ∧
  ∃ r, In r rs ∧ Method r = "POST" ∧ Path r = "/submit" ∧
       PostFormValue r "secret" = SecretConfig cfg ∧ PostFormValue r "url" = url.
Proof.
  revert w resps. induction rs as [| r rs IH]; intros w resps.
  - intros [= _ <-] Hnone Hsome. congruence.
  - rewrite serve_cons.
    destruct (handler cfg h r w) as [[resp w1] | msg] eqn:E1; [| discriminate].
    destruct (serve cfg h rs w1) as [[resps' w2] | msg] eqn:E2; [| discriminate].
    intros [= _ <-] Hnone Hsome.
    destruct (storage w1 !! slug) as [u |] eqn:Hmid.
    + pose proof (entries_kept_step cfg h rs w1 resps' w2 slug u E2 Hmid) as Hu.
      assert (u = url) as -> by congruence.
      pose proof (handler_effect cfg h r w resp w1 E1)
        as [-> | [(HM & HP & Hs & Hne & _) (s & w0 & Ep & _ & ->)]]; [congruence |].
      rewrite storage_added in Hmid.
      pose proof (pick_returned cfg w _ _ _ Ep) as (_ & Hst & _).
      rewrite Hst in Hmid.
      apply lookup_insert_Some in Hmid as [[<- <-] | [_ Hmid]]; [| congruence].
      split; [| split; [exact Hne |]].
      * pose proof (handler_storage cfg h r w resp _ E1) as [Heq | (s' & Hn' & Ha & _ & Heq)].
        -- rewrite storage_added, Hst in Heq.
           apply (f_equal (.!! s)) in Heq. rewrite lookup_insert_eq in Heq. congruence.
        -- rewrite storage_added, Hst in Heq.
           destruct (decide (s' = s)) as [<- | Hne']; [exact Ha |].
           apply (f_equal (.!! s)) in Heq.
           rewrite lookup_insert_eq, lookup_insert_ne in Heq by exact Hne'. congruence.
      * exists r. split; [now left |]. auto.
    + destruct (IH w1 resps' E2 Hmid Hsome) as (Ha & Hu & r' & Hin & Hr').
      split; [exact Ha |]. split; [exact Hu |]. exists r'. split; [now right | exact Hr'].
Qed.

Lemma new_entries_shape_witness :
  alphabetic "ahovC" ∧ "http://example.com" ≠ "" ∧
  ∃ r, In r [submit "changeme" "http://example.com" ""] ∧
       Method r = "POST" ∧ Path r = "/submit" ∧
       PostFormValue r "secret" = SecretConfig default_flags ∧
       PostFormValue r "url" = "http://example.com".
Proof.
  apply (new_entries_shape default_flags plain_host
           [submit "changeme" "http://example.com" ""] (startup None sevens)
           [Write "http://localhost/ahovC"] once "ahovC" "http://example.com").
  - vm_compute. reflexivity.
  - reflexivity.
  - vm_compute. reflexivity.
Defined.

Lemma pick_file cfg w slug s w1 :
  pick cfg w slug = Returned (s, w1) → file w1 = file w.
Proof.
  unfold pick. destruct (_ || _).
  - intros E. apply genUniqueSlug_returned in E. tauto.
  - now intros [= _ <-].
Qed.

(** X7.  After a request that is answered, either the forward map and the
    file are both as before, or one entry was added under an absent slug and
    the file is the dump of the new forward map, unless the temporary file
    could not be created, in which case the file is the old one. *)
Theorem file_follows_memory_or_stays cfg h r w resp w' :
  handler cfg h r w = Returned (resp, w') →
  (storage w' = storage w ∧ file w' = file w) ∨
  (∃ slug, storage w !! slug = None ∧
           storage w' = <[slug := PostFormValue r "url"]> (storage w) ∧
           file w' = if tempFileOk h
                     then Some (storage_text (rangeOrder h (storage w')))
                     else file w).
Proof.
  intros E. destruct (handler_effect cfg h r w resp w' E)
    as [-> | [_ (slug & w1 & Ep & _ & ->)]]; [now left |].
  right. exists slug.
  pose proof (pick_returned cfg w _ _ _ Ep) as (Hnone & Hst & _).
  pose proof (pick_file cfg w _ _ _ Ep) as Hfile.
  rewrite storage_added, Hst. split; [exact Hnone |]. split; [reflexivity |].
  unfold added, writeStorage. destruct (tempFileOk h); cbn; [| exact Hfile].
  now rewrite Hst.
Qed.

Lemma file_follows_memory_or_stays_witness :
  (storage once = storage (startup None sevens) ∧
   file once = file (startup None sevens)) ∨
  (∃ slug, storage (startup None sevens) !! slug = None ∧
           storage once =
           <[slug := PostFormValue (submit "changeme" "http://example.com" "") "url"]>
             (storage (startup None sevens)) ∧
           file once = if tempFileOk plain_host
                       then Some (storage_text (rangeOrder plain_host (storage once)))
                       else file (startup None sevens)).
Proof.
  apply (file_follows_memory_or_stays default_flags plain_host
           (submit "changeme" "http://example.com" "") (startup None sevens)
           (Write "http://localhost/ahovC") once).
  vm_compute. reflexivity.
Defined.

(** X8.  When [ioutil.TempFile] fails, a submission with an acceptable slug is
    still answered with the short URL and the entry is in the forward map,
    but the storage file is left as it was: memory and file differ. *)
Theorem temp_file_failure cfg h r w :
  tempFileOk h = false →
  Method r = "POST" → Path r = "/submit" →
  PostFormValue r "secret" = SecretConfig cfg →
  PostFormValue r "url" ≠ "" →
  storageReverse w !! PostFormValue r "url" = None →
  acceptable w (PostFormValue r "slug") →
  ∃ w', handler cfg h r w =
        Returned (Write (ServerNameConfig cfg ++ "/" ++ PostFormValue r "slug"), w') ∧
        storage w' !! PostFormValue r "slug" = Some (PostFormValue r "url") ∧
        file w' = file w.
Proof.
  intros Htmp HM HP Hs Hu Hrev Hacc.
  rewrite (handler_submit cfg h r w HM HP), Hs, String.eqb_refl, Hrev.
  apply String.eqb_neq in Hu. rewrite Hu. cbn [negb andb].
  rewrite (pick_acceptable cfg w _ Hacc). eexists. split; [reflexivity |].
  rewrite storage_added, lookup_insert_eq. split; [reflexivity |].
  unfold added, writeStorage. now rewrite Htmp.
Qed.

Lemma temp_file_failure_witness :
  ∃ w', handler default_flags {| rangeOrder := map_to_list; tempFileOk := false |}
          (submit "changeme" "http://example.com" "ab") (startup None sevens) =
        Returned (Write ("http://localhost" ++ "/" ++ "ab"), w') ∧
        storage w' !! "ab" = Some "http://example.com" ∧
        file w' = None.
Proof.
  refine (temp_file_failure default_flags {| rangeOrder := map_to_list; tempFileOk := false |}
            (submit "changeme" "http://example.com" "ab") (startup None sevens)
            eq_refl eq_refl eq_refl eq_refl _ eq_refl _).
  - discriminate.
  - split; [discriminate |]. split; [| reflexivity].
    apply invalidSlug_alphabetic. reflexivity.
Defined.

(** *** One line per entry *)

Lemma raw_lines_written l :
  Forall (λ p : string * string, free_of newline p.1) l →
  raw_lines (newline_fields (storage_text l)) = written <$> l.
Proof.
  induction 1 as [| [slug url] l Hp _ IH]; [reflexivity |].
  cbn [storage_text fmap list_fmap]. rewrite entry_line_app. cbn [fst] in Hp.
  rewrite raw_lines_line, IH; [reflexivity |].
  unfold entry_line. apply free_of_app. split; [exact Hp |].
  apply free_of_cons. split; [discriminate | apply Replace_newlines_free].
Qed.

(** X9.  Because newlines are removed from the URLs, the file written for a
    store whose slugs contain no newline has exactly one line per entry: its
    lines are the lines [slug ++ " " ++ url] of the entries in the order of
    the iteration, and their number is the size of the forward map. *)
Theorem one_line_per_entry h w :
  tempFileOk h = true →
  rangeOrder h (storage w) ≡ₚ map_to_list (storage w) →
  (∀ slug url, storage w !! slug = Some url → free_of newline slug) →
  ∃ content,
    file (writeStorage h w) = Some content ∧
    raw_lines (newline_fields content) = written <$> rangeOrder h (storage w) ∧
    length (raw_lines (newline_fields content)) = size (storage w).
Proof.
  intros Htmp Hperm Hclean. unfold writeStorage. rewrite Htmp.
  eexists. split; [reflexivity |].
  assert (raw_lines (newline_fields (storage_text (rangeOrder h (storage w)))) =
          written <$> rangeOrder h (storage w)) as ->.
  { apply raw_lines_written. apply Forall_forall. intros [slug url] Hin.
    apply (Hclean slug url). apply elem_of_map_to_list. now rewrite <- Hperm. }
  split; [reflexivity |].
  now rewrite length_fmap, Hperm, length_map_to_list.
Qed.

Lemma one_line_per_entry_witness :
  ∃ content,
    file (writeStorage plain_host twice) = Some content ∧
    raw_lines (newline_fields content) =
    written <$> rangeOrder plain_host (storage twice) ∧
    length (raw_lines (newline_fields content)) = size (storage twice).
Proof.
  apply (one_line_per_entry plain_host twice); [reflexivity | reflexivity |].
  intros slug url H. apply free_of_check.
  unfold twice, once in H. rewrite storage_added in H.
  change (storage (set_rand_used 10 ?x)) with (storage x) in H.
  rewrite storage_added in H.
  apply lookup_insert_Some in H as [[<- _] | [_ H]]; [reflexivity |].
  apply lookup_insert_Some in H as [[<- _] | [_ H]]; [reflexivity | discriminate].
Defined.

(** X10.  In every state reached from start-up, on any file, by a run of
    requests, no slug of the forward map contains a space or a newline. *)
Theorem reachable_slugs_clean cfg h f src rs resps w' :
  serve cfg h rs (startup f src) = Returned (resps, w') →
  ∀ slug url, storage w' !! slug = Some url →
              free_of space slug ∧ free_of newline slug.
Proof.
  intros E. apply (serve_clean cfg h rs (startup f src) resps w'); [| exact E].
  apply startup_clean.
Qed.

Lemma reachable_slugs_clean_witness :
  free_of space "JQX4b" ∧ free_of newline "JQX4b".
Proof.
  apply (reachable_slugs_clean default_flags plain_host None sevens
           [submit "changeme" "http://example.com" "";
            submit "changeme" "http://example.com" ""]
           [Write "http://localhost/ahovC"; Write "http://localhost/JQX4b"] twice
           eq_refl "JQX4b" "http://example.com").
  vm_compute. reflexivity.
Defined.

(** *** What the scanner delivers *)

Lemma length_dropCR s : (String.length (dropCR s) ≤ String.length s)%nat.
Proof.
  induction s as [| c s IH]; [reflexivity |].
  destruct s as [| c' s'].
  - cbn. destruct (Ascii.eqb c carriage_return); cbn; lia.
  - change (dropCR (String c (String c' s'))) with (String c (dropCR (String c' s'))).
    cbn [String.length] in *. lia.
Qed.

Lemma scan_tokens_all_short ls : Forall short (scan_tokens ls).1.
Proof.
  induction ls as [| l ls IH]; [constructor |].
  cbn [scan_tokens].
  destruct (Nat.leb_spec MaxScanTokenSize (String.length l)) as [Hl | Hl];
    [constructor |].
  destruct (scan_tokens ls) as [toks err]. cbn [fst] in *.
  constructor; [| exact IH].
  unfold short. pose proof (length_dropCR l). lia.
Qed.

Lemma append_assoc_string a b c : (a ++ b) ++ c = a ++ (b ++ c).
Proof.
  induction a as [| x a IH]; [reflexivity |].
  rewrite !append_cons. now rewrite IH.
Qed.

(** X11.  Whatever the file holds, an entry of the forward map after loading
    has a slug without space and newline, a URL without newline, and slug,
    space and URL together are shorter than 65536 bytes. *)
Theorem loaded_entries_shape f src slug url :
  storage (startup f src) !! slug = Some url →
  free_of space slug ∧ free_of newline slug ∧ free_of newline url ∧
  (len slug + 1 + len url < 65536)%Z.
Proof.
  destruct f as [content |]; [| intros H; cbn in H; now rewrite lookup_empty in H].
  rewrite startup_Some. intros H.
  apply storage_loaded in H as (before & after & Hlines & Hfree & _).
  assert ((slug ++ " " ++ url) ∈ (Scanner content).1) as Hin.
  { rewrite Hlines. apply elem_of_app. right. apply list_elem_of_here. }
  pose proof (Scanner_free content) as Hnl.
  pose proof (scan_tokens_all_short (raw_lines (newline_fields content))) as Hshort.
  fold (Scanner content) in Hshort.
  rewrite Forall_forall in Hnl, Hshort.
  specialize (Hnl _ Hin). specialize (Hshort _ Hin).
  change (slug ++ " " ++ url) with (slug ++ String space url) in Hnl, Hshort.
  apply free_of_app in Hnl as [Hnl1 [_ Hnl2]%free_of_cons].
  repeat split; try assumption.
  unfold short, MaxScanTokenSize in Hshort.
  fold (entry_line slug url) in Hshort. rewrite length_entry_line in Hshort.
  unfold len. lia.
Qed.

Lemma loaded_entries_shape_witness :
  free_of space "a-b" ∧ free_of newline "a-b" ∧
  free_of newline "http://example.org" ∧
  (len "a-b" + 1 + len "http://example.org" < 65536)%Z.
Proof.
  apply (loaded_entries_shape (Some odd_file) sevens "a-b" "http://example.org").
  vm_compute. reflexivity.
Defined.

(** X12.  A URL loaded from the file is deduplicated: an authorized submission
    of the URL of a loaded line (the last one with that URL) is answered with
    that line's slug, whatever slug the caller asks for, and the state stays
    as it was. *)
Theorem loaded_url_deduplicated cfg h content src r slug before after :
  (Scanner content).1 =
  (before ++ (slug ++ " " ++ PostFormValue r "url")%string :: after)%list →
  free_of space slug →
  (∀ s, free_of space s → s ++ " " ++ PostFormValue r "url" ∉ after) →
  Method r = "POST" → Path r = "/submit" →
  PostFormValue r "secret" = SecretConfig cfg →
  PostFormValue r "url" ≠ "" →
  handler cfg h r (startup (Some content) src) =
  Returned (Write (ServerNameConfig cfg ++ "/" ++ slug), startup (Some content) src).
Proof.
  intros Hlines Hfree Hlast HM HP Hs Hu.
  apply (known_url_deduplicated cfg h r _ slug HM HP Hs Hu).
  rewrite startup_Some. apply storageReverse_loaded.
  exists before, after. auto.
Qed.

Lemma loaded_url_deduplicated_witness :
  handler default_flags plain_host (submit "changeme" "http://example.org" "zz")
    (startup (Some odd_file) sevens) =
  Returned (Write ("http://localhost" ++ "/" ++ "a-b"), startup (Some odd_file) sevens).
Proof.
  refine (loaded_url_deduplicated default_flags plain_host odd_file sevens
            (submit "changeme" "http://example.org" "zz") "a-b"
            [" http://example.com"] [] eq_refl _ _ eq_refl eq_refl eq_refl _).
  - apply free_of_check. reflexivity.
  - intros s _ H. now apply elem_of_nil in H.
  - discriminate.
Defined.

(** *** Line endings *)

Lemma raw_lines_join_LF ls :
  Forall (free_of newline) ls →
  raw_lines (newline_fields (join_lines LF ls)) = ls.
Proof.
  induction 1 as [| l ls Hl _ IH]; [reflexivity |].
  cbn [join_lines]. unfold LF at 1. rewrite append_cons, append_empty.
  now rewrite raw_lines_line, IH.
Qed.

Lemma raw_lines_join_CRLF ls :
  Forall (free_of newline) ls →
  raw_lines (newline_fields (join_lines CRLF ls)) =
  (λ l, l ++ String carriage_return "") <$> ls.
Proof.
  induction 1 as [| l ls Hl _ IH]; [reflexivity |].
  cbn [join_lines fmap list_fmap]. unfold CRLF at 1.
  rewrite !append_cons, append_empty.
  change (l ++ String carriage_return (String newline (join_lines CRLF ls)))
    with (l ++ (String carriage_return "" ++ String newline (join_lines CRLF ls))).
  rewrite <- append_assoc_string, raw_lines_line, IH; [reflexivity |].
  apply free_of_app. split; [exact Hl |].
  apply free_of_cons. split; [discriminate | intros []].
Qed.

(** X13.  Files with CRLF line ends load like files with LF line ends: for
    lines without newline that do not end with a carriage return and are
    shorter than 65535 bytes, the scanner delivers the same lines in both
    cases and the two maps after loading are the same. *)
Theorem crlf_tolerated ls src :
  Forall (λ l, free_of newline l ∧ ¬ ends_with_cr l ∧ (len l + 1 < 65536)%Z) ls →
  Scanner (join_lines CRLF ls) = (ls, false) ∧
  Scanner (join_lines LF ls) = (ls, false) ∧
  storage (startup (Some (join_lines CRLF ls)) src) =
  storage (startup (Some (join_lines LF ls)) src) ∧
  storageReverse (startup (Some (join_lines CRLF ls)) src) =
  storageReverse (startup (Some (join_lines LF ls)) src).
Proof.
  intros H.
  assert (Forall (free_of newline) ls) as Hnl
    by (eapply Forall_impl; [exact H | intros l (? & _); assumption]).
  assert (Scanner (join_lines CRLF ls) = (ls, false)) as E1.
  { unfold Scanner. rewrite raw_lines_join_CRLF by exact Hnl.
    rewrite scan_tokens_short.
    - f_equal. rewrite <- list_fmap_compose.
      rewrite <- (list_fmap_id ls) at 2. apply list_fmap_ext.
      intros i l _. cbn. apply dropCR_cr.
    - apply Forall_fmap. eapply Forall_impl; [exact H |].
      intros l (_ & _ & Hlen). unfold short, MaxScanTokenSize. cbn.
      rewrite length_app_string. unfold len in Hlen. cbn. lia. }
  assert (Scanner (join_lines LF ls) = (ls, false)) as E2.
  { unfold Scanner. rewrite raw_lines_join_LF by exact Hnl.
    rewrite scan_tokens_short.
    - f_equal. rewrite <- (list_fmap_id ls) at 2. apply list_fmap_ext.
      intros i l Hl%list_elem_of_lookup_2. rewrite Forall_forall in H.
      apply dropCR_id. now apply H.
    - eapply Forall_impl; [exact H |].
      intros l (_ & _ & Hlen). unfold short, MaxScanTokenSize. unfold len in Hlen. lia. }
  split; [exact E1 |]. split; [exact E2 |].
  rewrite !startup_Some, E1, E2.
  rewrite !storage_foldl_readLine, !storageReverse_foldl_readLine. split; reflexivity.
Qed.

Lemma crlf_tolerated_witness :
  Scanner (join_lines CRLF ["ab http://example.com"; "cd http://example.org"]) =
  (["ab http://example.com"; "cd http://example.org"], false).
Proof.
  apply (crlf_tolerated ["ab http://example.com"; "cd http://example.org"] sevens).
  repeat constructor;
    try (apply free_of_check; reflexivity);
    try (apply dropCR_fixed; reflexivity).
Defined.

Lemma newline_fields_last t c :
  c ≠ newline →
  ∃ front last,
    last ≠ "" ∧
    newline_fields (t ++ String c "") = (front ++ [last])%list ∧
    newline_fields (t ++ String c LF) = (front ++ [last; ""])%list.
Proof.
  intros Hc. pose proof Hc as Hc'. apply Ascii.eqb_neq in Hc'.
  induction t as [| x t (front & last & Hlast & E1 & E2)].
  - exists [], (String c ""). rewrite !append_empty. cbn. rewrite Hc'.
    split; [discriminate |]. split; reflexivity.
  - rewrite !append_cons. cbn [newline_fields]. rewrite E1, E2.
    destruct (Ascii.eqb x newline).
    + exists ("" :: front), last. auto.
    + destruct front as [| l front].
      * exists [], (String x last). split; [discriminate |]. split; reflexivity.
      * exists (String x l :: front), last. auto.
Qed.

Lemma raw_lines_last front last :
  last ≠ "" →
  raw_lines (front ++ [last]) = (front ++ [last])%list ∧
  raw_lines (front ++ [last; ""]) = (front ++ [last])%list.
Proof.
  intros Hlast. apply String.eqb_neq in Hlast.
  induction front as [| l front [IH1 IH2]].
  - cbn. now rewrite Hlast.
  - cbn [app]. rewrite !raw_lines_cons by (now destruct front).
    now rewrite IH1, IH2.
Qed.

(** X14.  The newline after the last line is optional: a text that ends with
    a byte other than a newline is scanned, and loaded, like the same text
    followed by a newline. *)
Theorem final_newline_optional t c src :
  c ≠ newline →
  Scanner ((t ++ String c "") ++ LF) = Scanner (t ++ String c "") ∧
  storage (startup (Some ((t ++ String c "") ++ LF)) src) =
  storage (startup (Some (t ++ String c "")) src) ∧
  storageReverse (startup (Some ((t ++ String c "") ++ LF)) src) =
  storageReverse (startup (Some (t ++ String c "")) src).
Proof.
  intros Hc.
  assert (Scanner ((t ++ String c "") ++ LF) = Scanner (t ++ String c "")) as E.
  { unfold Scanner. rewrite append_assoc_string.
    change (String c "" ++ LF) with (String c LF).
    destruct (newline_fields_last t c Hc) as (front & last & Hlast & -> & ->).
    destruct (raw_lines_last front last Hlast) as [-> ->]. reflexivity. }
  split; [exact E |].
  rewrite !startup_Some, E, !storage_foldl_readLine, !storageReverse_foldl_readLine.
  split; reflexivity.
Qed.

Lemma final_newline_optional_witness :
  Scanner (("ab http://example.co" ++ String "m" "") ++ LF) =
  Scanner ("ab http://example.co" ++ String "m" "").
Proof.
  apply (final_newline_optional "ab http://example.co" "m" sevens).
  discriminate.
Defined.

(** *** The characters of a generated slug *)

Lemma oneSlugEntry_exact w :
  ∃ c, drawn w (rand_used w) = Some c ∧
       oneSlugEntry w = Returned (byteZ c, set_rand_used (S (rand_used w)) w).
Proof.
  unfold oneSlugEntry, drawn. unfold_M. unfold Intn, index. unfold_M.
  rewrite alphabet_len.
  set (v := (Z.of_nat (rand_source w (rand_used w)) mod 62)%Z).
  assert (0 ≤ v < 62)%Z as Hv by (apply Z.mod_pos_bound; lia).
  assert (Z.to_nat v = rand_source w (rand_used w) mod 62)%nat as Hnat
    by (unfold v; change 62%Z with (Z.of_nat 62);
        now rewrite <- Nat2Z.inj_mod, Nat2Z.id).
  destruct (get_In (Z.to_nat v) allSlugPossibilities) as (c & Hget & _).
  { change (String.length allSlugPossibilities) with (Z.to_nat 62). lia. }
  exists c. rewrite <- Hnat. split; [exact Hget |].
  cbn [Z.leb Z.compare].
  destruct ((v <? 0)%Z || (62 <=? v)%Z) eqn:E; [lia |].
  now rewrite Hget.
Qed.

Lemma fill_entries_exact n w :
  ∃ cs, length cs = n ∧
        (∀ i, (i < n)%nat → cs !! i = drawn w (rand_used w + i)) ∧
        Forall in_alphabet cs ∧
        fill_entries n w =
        Returned (byteZ <$> cs, set_rand_used (rand_used w + n) w).
Proof.
  revert w. induction n as [| n IH]; intros w.
  - exists []. split; [reflexivity |]. split; [intros i Hi; lia |].
    split; [constructor |].
    cbn. unfold_M. now rewrite Nat.add_0_r, set_rand_used_id.
  - destruct (oneSlugEntry_exact w) as (c & Hc & E1).
    destruct (IH (set_rand_used (S (rand_used w)) w)) as (cs & Hlen & Hcs & Hal & E2).
    exists (c :: cs). split; [cbn; lia |]. split; [| split].
    + intros [| i] Hi.
      * now rewrite Nat.add_0_r, Hc.
      * change ((c :: cs) !! S i) with (cs !! i). rewrite Hcs by lia.
        replace (rand_used w + S i)%nat with (S (rand_used w) + i)%nat by lia.
        reflexivity.
    + constructor; [| exact Hal].
      unfold drawn in Hc. unfold in_alphabet.
      clear -Hc. revert Hc. generalize (rand_source w (rand_used w) mod 62)%nat.
      unfold bytes. induction allSlugPossibilities as [| x s IHs]; intros [| k]; cbn;
        try discriminate.
      -- intros [= ->]. now left.
      -- intros H. right. now apply (IHs k).
    + cbn [fill_entries]. unfold_M. rewrite E1, E2. cbn.
      do 2 f_equal. unfold set_rand_used. cbn. f_equal. lia.
Qed.

Lemma get_string_of_list_ascii cs i :
  String.get i (string_of_list_ascii cs) = cs !! i.
Proof.
  revert i. induction cs as [| c cs IH]; intros [| i]; cbn; auto.
Qed.

(** X15.  For a non-negative [SpaceConfig], [genSlug] never fails (the index
    into the alphabet is always in range), uses exactly [SpaceConfig] outputs
    of the random source and touches nothing else, and the [i]-th character
    of the slug is the character of the alphabet at the index given by the
    [i]-th of these outputs, reduced modulo 62. *)
Theorem genSlug_characters cfg w :
  (0 ≤ SpaceConfig cfg)%Z →
  ∃ s, genSlug cfg w =
       Returned (s, set_rand_used (rand_used w + Z.to_nat (SpaceConfig cfg)) w) ∧
       len s = SpaceConfig cfg ∧
       ∀ i, (Z.of_nat i < SpaceConfig cfg)%Z →
            String.get i s = drawn w (rand_used w + i) ∧
            is_Some (String.get i s).
Proof.
  intros H. unfold genSlug.
  destruct (Z.ltb_spec (SpaceConfig cfg) 0); [lia |].
  destruct (fill_entries_exact (Z.to_nat (SpaceConfig cfg)) w)
    as (cs & Hlen & Hcs & Hal & E).
  exists (string_of_list_ascii cs).
  unfold_M. rewrite E, string_of_runes_ascii by exact Hal.
  split; [reflexivity |]. split.
  - unfold len.
    assert (String.length (string_of_list_ascii cs) = length cs) as ->
      by (clear; induction cs; cbn; congruence).
    lia.
  - intros i Hi. rewrite get_string_of_list_ascii. split; [apply Hcs; lia |].
    apply lookup_lt_is_Some. lia.
Qed.

Lemma genSlug_characters_witness :
  ∃ s, genSlug default_flags (startup None sevens) =
       Returned (s, set_rand_used (rand_used (startup None sevens) + Z.to_nat 5)
                      (startup None sevens)) ∧
       len s = 5%Z ∧
       ∀ i, (Z.of_nat i < 5)%Z →
            String.get i s = drawn (startup None sevens)
                               (rand_used (startup None sevens) + i) ∧
            is_Some (String.get i s).
Proof.
  apply (genSlug_characters default_flags (startup None sevens)).
  discriminate.
Defined.

(** *** Degenerate slug lengths *)

Lemma attempt_zero_space cfg w k :
  SpaceConfig cfg = 0%Z → attempt cfg w k = Returned ("", w).
Proof.
  intros H. unfold attempt, genSlug. rewrite H. cbn. unfold_M.
  now rewrite Nat.mul_0_r, !Nat.add_0_r, set_rand_used_id.
Qed.

(** X16.  With [SpaceConfig = 0] the only slug that can be generated is the
    empty one: [genUniqueSlug] returns it, without using the random source,
    while the forward map has no empty slug, and panics after its 100000
    attempts once it has. *)
Theorem zero_space cfg w :
  SpaceConfig cfg = 0%Z →
  (storage w !! "" = None → genUniqueSlug cfg w = Returned ("", w)) ∧
  (is_Some (storage w !! "") → genUniqueSlug cfg w = Panicked exhausted).
Proof.
  intros H. unfold genUniqueSlug. split.
  - intros Hnone. apply loop_returned. exists 0%nat.
    split; [unfold max_attempts; lia |].
    split; [now apply attempt_zero_space |]. split; [exact Hnone |].
    intros j Hj. lia.
  - intros Hsome. apply loop_exhausted. intros k _.
    exists "", w. split; [now apply attempt_zero_space | exact Hsome].
Qed.

Lemma zero_space_witness :
  genUniqueSlug zero_space_flags (startup None sevens) =
  Returned ("", startup None sevens).
Proof.
  refine (proj1 (zero_space zero_space_flags (startup None sevens) eq_refl) _).
  reflexivity.
Defined.

(** X17.  With a negative [SpaceConfig] a submission is served only when the
    caller's slug is acceptable; otherwise the handler panics, at the [make]
    of [genSlug] and not with the message of the exhausted retries. *)
Theorem negative_space cfg h r w :
  (SpaceConfig cfg < 0)%Z →
  Method r = "POST" → Path r = "/submit" →
  PostFormValue r "secret" = SecretConfig cfg →
  PostFormValue r "url" ≠ "" →
  storageReverse w !! PostFormValue r "url" = None →
  (acceptable w (PostFormValue r "slug") →
   ∃ w', handler cfg h r w =
         Returned (Write (ServerNameConfig cfg ++ "/" ++ PostFormValue r "slug"), w')) ∧
  (¬ acceptable w (PostFormValue r "slug") →
   ∃ msg, handler cfg h r w = Panicked msg ∧ msg ≠ exhausted).
Proof.
  intros Hneg HM HP Hs Hu Hrev.
  rewrite (handler_submit cfg h r w HM HP), Hs, String.eqb_refl, Hrev.
  apply String.eqb_neq in Hu. rewrite Hu. cbn [negb andb]. split; intros Hacc.
  - rewrite (pick_acceptable cfg w _ Hacc). eauto.
  - rewrite (pick_unacceptable cfg w _ Hacc).
    unfold genUniqueSlug.
    assert (max_attempts = S (pred max_attempts)) as ->
      by (unfold max_attempts; lia).
    rewrite loop_step, genSlug_negative by exact Hneg.
    eexists. split; [reflexivity | discriminate].
Qed.

Lemma negative_space_witness :
  ∃ msg, handler negative_space_flags plain_host
           (submit "changeme" "http://example.com" "") (startup None sevens) =
         Panicked msg ∧ msg ≠ exhausted.
Proof.
  refine (proj2 (negative_space negative_space_flags plain_host
                   (submit "changeme" "http://example.com" "") (startup None sevens)
                   eq_refl eq_refl eq_refl eq_refl _ eq_refl) _).
  - discriminate.
  - intros (H & _). now apply H.
Defined.

(** X18.  When no slug and no URL occurs twice among the loaded lines, the
    two maps after loading hold the same pairs, no URL has two slugs, and an
    authorized submission of any stored URL is answered with its slug and
    changes nothing. *)
Theorem load_without_repeats_is_bijective content src :
  NoDup (omap (cut space) (Scanner content).1).*1 →
  NoDup (omap (cut space) (Scanner content).1).*2 →
  consistent (startup (Some content) src) ∧
  (∀ s1 s2 url, storage (startup (Some content) src) !! s1 = Some url →
                storage (startup (Some content) src) !! s2 = Some url → s1 = s2) ∧
  (∀ cfg h r slug,
     Method r = "POST" → Path r = "/submit" →
     PostFormValue r "secret" = SecretConfig cfg → PostFormValue r "url" ≠ "" →
     storage (startup (Some content) src) !! slug = Some (PostFormValue r "url") →
     handler cfg h r (startup (Some content) src) =
     Returned (Write (ServerNameConfig cfg ++ "/" ++ slug), startup (Some content) src)).
Proof.
  intros Hslugs Hurls.
  pose proof (load_consistent content src Hslugs Hurls) as Hc.
  split; [exact Hc |]. split.
  - intros s1 s2 url H1 H2. apply Hc in H1, H2. congruence.
  - intros cfg h r slug HM HP Hs Hu Hin. apply Hc in Hin.
    now apply known_url_deduplicated.
Qed.

Lemma load_without_repeats_is_bijective_witness :
  consistent (startup (Some odd_file) sevens).
Proof.
  apply (load_without_repeats_is_bijective odd_file sevens).
  - apply (bool_decide_unpack _). vm_compute. reflexivity.
  - apply (bool_decide_unpack _). vm_compute. reflexivity.
Defined.

(** *** The directory during [writeStorage] *)

Lemma append_empty_r s : s ++ "" = s.
Proof. induction s as [| c s IH]; [reflexivity |]. rewrite append_cons. congruence. Qed.

Lemma storage_text_cons slug url rest :
  storage_text ((slug, url) :: rest) =
  (slug ++ String space (Replace_newlines url ++ String newline "")) ++ storage_text rest.
Proof.
  cbn [storage_text].
  induction slug as [| c s IH]; [| rewrite !append_cons; now rewrite IH].
  rewrite !append_empty, append_cons. f_equal.
  induction (Replace_newlines url) as [| c u IHu]; [reflexivity |].
  rewrite !append_cons. now rewrite IHu.
Qed.

Lemma Fprintf_entry_lookup f fs p c :
  fs !! f = Some c →
  Fprintf_entry f fs p !! f =
  Some (c ++ (p.1 ++ String space (Replace_newlines p.2 ++ String newline ""))) ∧
  ∀ g, g ≠ f → Fprintf_entry f fs p !! g = fs !! g.
Proof.
  intros Hf. unfold Fprintf_entry. rewrite lookup_insert_eq, Hf. split; [reflexivity |].
  intros g Hg. now rewrite lookup_insert_ne.
Qed.

(** After the loop the temporary file holds the whole text, and no other
    file has changed. *)
Lemma print_all_spec f entries fs c :
  fs !! f = Some c →
  print_all f entries fs !! f = Some (c ++ storage_text entries) ∧
  ∀ g, g ≠ f → print_all f entries fs !! g = fs !! g.
Proof.
  revert fs c. induction entries as [| [slug url] rest IH]; intros fs c Hf.
  - cbn. now rewrite append_empty_r.
  - unfold print_all. cbn [foldl]. fold (print_all f rest (Fprintf_entry f fs (slug, url))).
    destruct (Fprintf_entry_lookup f fs (slug, url) c Hf) as [Hf' Hother].
    destruct (IH _ _ Hf') as [IH1 IH2]. cbn [fst snd] in *.
    rewrite storage_text_cons, IH1, append_assoc_string. split; [reflexivity |].
    intros g Hg. now rewrite IH2, Hother.
Qed.

(** During the loop only the temporary file changes, and it holds a prefix
    of the text. *)
Lemma print_steps_spec f entries fs c :
  fs !! f = Some c →
  Forall (λ s : Files, (∀ g, g ≠ f → s !! g = fs !! g) ∧
                       ∃ done todo, storage_text entries = done ++ todo ∧
                                    s !! f = Some (c ++ done))
         (print_steps f entries fs).
Proof.
  revert fs c. induction entries as [| [slug url] rest IH]; intros fs c Hf.
  - constructor.
  - cbn [print_steps].
    destruct (Fprintf_entry_lookup f fs (slug, url) c Hf) as [Hf' Hother].
    cbn [fst snd] in *. rewrite storage_text_cons. constructor.
    + split; [exact Hother |]. eexists _, _. split; [reflexivity | exact Hf'].
    + eapply Forall_impl; [exact (IH _ _ Hf') |].
      intros s [Hs (done & todo & Htxt & Hsf)]. split.
      * intros g Hg. now rewrite Hs, Hother.
      * exists ((slug ++ String space (Replace_newlines url ++ String newline ""))
                 ++ done), todo.
        rewrite Htxt, Hsf.
        split; [symmetry | f_equal]; apply append_assoc_string.
Qed.

Lemma closed_spec f entries (fs : Files) :
  closed f entries fs !! f = Some (storage_text entries) ∧
  ∀ g, g ≠ f → closed f entries fs !! g = fs !! g.
Proof.
  unfold closed.
  destruct (print_all_spec f entries (<[f := ""]> fs) "") as [H1 H2];
    [apply lookup_insert_eq |].
  rewrite append_empty in H1. split; [exact H1 |].
  intros g Hg. now rewrite H2, lookup_insert_ne.
Qed.

Lemma removed_spec name f entries (fs : Files) :
  f ≠ name →
  removed name f entries fs !! f = Some (storage_text entries) ∧
  removed name f entries fs !! name = None ∧
  ∀ g, g ≠ f → g ≠ name → removed name f entries fs !! g = fs !! g.
Proof.
  intros Hne. destruct (closed_spec f entries fs) as [Hf Hother].
  unfold removed, fileExists, Remove. case_bool_decide as Hex.
  - rewrite lookup_delete_ne, lookup_delete_eq by congruence.
    split; [exact Hf |]. split; [reflexivity |].
    intros g Hg Hg'. rewrite lookup_delete_ne by congruence. now apply Hother.
  - split; [exact Hf |]. split; [now apply eq_None_not_Some |].
    intros g Hg _. now apply Hother.
Qed.

Lemma writeStorage_replaces_file_aux name f entries (fs : Files) :
  fs !! f = None → f ≠ name →
  writeStorage_files name (Some f) entries fs = <[name := storage_text entries]> fs.
Proof.
  intros Hfresh Hne.
  destruct (removed_spec name f entries fs Hne) as (Hf & Hname & Hother).
  unfold writeStorage_files, Rename. rewrite Hf. apply map_eq. intros g.
  destruct (decide (g = name)) as [-> | Hg].
  - now rewrite !lookup_insert_eq.
  - rewrite !lookup_insert_ne by congruence.
    destruct (decide (g = f)) as [-> | Hg'].
    + now rewrite lookup_delete_eq, Hfresh.
    + rewrite lookup_delete_ne by congruence. now apply Hother.
Qed.

(** X19.  [writeStorage], statement by statement: when the temporary file is
    new and is not the storage file, the directory after the call is the old
    one with the storage file holding the text of all entries, whether or not
    the storage file existed; the temporary file is gone and every other
    file is untouched.  When the temporary file cannot be created the
    directory is unchanged.  This is the file that [writeStorage] above
    records. *)
Theorem writeStorage_replaces_file name f entries (fs : Files) :
  fs !! f = None → f ≠ name →
  writeStorage_files name (Some f) entries fs =
  <[name := storage_text entries]> fs ∧
  writeStorage_files name (Some f) entries fs !! f = None ∧
  writeStorage_files name None entries fs = fs ∧
  ∀ h w,
    file w = fs !! name → entries = rangeOrder h (storage w) →
    file (writeStorage h w) =
    writeStorage_files name (if tempFileOk h then Some f else None) entries fs !! name.
Proof.
  intros Hfresh Hne.
  pose proof (writeStorage_replaces_file_aux name f entries fs Hfresh Hne) as E.
  split; [exact E |]. split; [| split; [reflexivity |]].
  - rewrite E, lookup_insert_ne by congruence. exact Hfresh.
  - intros h w Hfile ->. unfold writeStorage. destruct (tempFileOk h).
    + now rewrite E, lookup_insert_eq.
    + exact Hfile.
Qed.

Lemma writeStorage_replaces_file_witness :
  writeStorage_files storage_name (Some "goshort-storage123")
    [("ab", "http://example.com")] old_directory =
  <[storage_name := storage_text [("ab", "http://example.com")]]> old_directory.
Proof.
  apply (writeStorage_replaces_file storage_name "goshort-storage123"
           [("ab", "http://example.com")] old_directory).
  - reflexivity.
  - discriminate.
Defined.

(** X20.  At no point during [writeStorage] does the storage file hold a
    part of the text: after each statement it has its old content, or is
    absent while the temporary file already holds the whole text (between
    [os.Remove] and [os.Rename]), or holds the whole text; and no other file
    than these two changes. *)
Theorem storage_file_never_partial name f entries (fs : Files) :
  fs !! f = None → f ≠ name →
  Forall (λ s : Files,
            (s !! name = fs !! name ∨
             (s !! name = None ∧ s !! f = Some (storage_text entries)) ∨
             s !! name = Some (storage_text entries)) ∧
            ∀ g, g ≠ f → g ≠ name → s !! g = fs !! g)
         (writeStorage_steps name (Some f) entries fs).
Proof.
  intros Hfresh Hne.
  destruct (removed_spec name f entries fs Hne) as (Hf & Hname & Hother).
  pose proof (writeStorage_replaces_file_aux name f entries fs Hfresh Hne) as E.
  unfold writeStorage_steps. apply Forall_app. split.
  - constructor.
    + split; [left; now rewrite lookup_insert_ne |].
      intros g Hg _. now rewrite lookup_insert_ne.
    + eapply Forall_impl;
        [exact (print_steps_spec f entries (<[f := ""]> fs) "" (lookup_insert_eq _ _ _)) |].
      intros s [Hs _]. split.
      * left. rewrite Hs by congruence. now rewrite lookup_insert_ne.
      * intros g Hg _. rewrite Hs by congruence. now rewrite lookup_insert_ne.
  - constructor; [| constructor; [| constructor]].
    + split; [right; left; auto | exact Hother].
    + rewrite E. split.
      * right. right. apply lookup_insert_eq.
      * intros g _ Hg. now rewrite lookup_insert_ne.
Qed.

Lemma storage_file_never_partial_witness :
  Forall (λ s : Files,
            (s !! storage_name = old_directory !! storage_name ∨
             (s !! storage_name = None ∧
              s !! "goshort-storage123" =
              Some (storage_text [("ab", "http://example.com"); ("cd", "x")])) ∨
             s !! storage_name =
             Some (storage_text [("ab", "http://example.com"); ("cd", "x")])) ∧
            ∀ g, g ≠ "goshort-storage123" → g ≠ storage_name →
                 s !! g = old_directory !! g)
         (writeStorage_steps storage_name (Some "goshort-storage123")
            [("ab", "http://example.com"); ("cd", "x")] old_directory).
Proof.
  apply (storage_file_never_partial storage_name "goshort-storage123"
           [("ab", "http://example.com"); ("cd", "x")] old_directory).
  - reflexivity.
  - discriminate.
Defined.
